(** * The theme router of TypeDoc ([src/lib/html/router.ts])

    A shallow embedding of [ThemeRouter] and [MinimalThemeRouter]: which
    reflections get a page of their own, the file name of each page, the
    anchors (slugs) inside a page and the relative links between pages.

    Conventions of the embedding.
    - A [Reflection] is an object identity (a natural number); the tree is a
      function from identities to the fields the router reads.  The router
      never writes to the tree.
    - Every [while] loop that follows [parent] links takes a [fuel] bound and
      answers [OutOfFuel] when it is exhausted; [assert] failures are
      [Threw].
    - JavaScript strings are [string]; one character stands for one code
      unit, so that the strings are those of code units below 256. *)

From Stdlib Require Import Ascii String List Arith Lia Bool.
From stdpp Require Import base gmap strings pretty list relations.

Open Scope string_scope.

(** ** Outcomes of a call *)

Inductive AssertionError :=
  | BrokenAncestryError   (* [assert(reflection.parent)] failed *)
  | NonProjectRootError.  (* [assert(docReflection.isProject())] failed *)

Inductive outcome (A : Type) :=
  | Ok (a : A)
  | Threw (e : AssertionError)
  | OutOfFuel.
Arguments Ok {A} a.
Arguments Threw {A} e.
Arguments OutOfFuel {A}.

Definition bind {A B} (m : outcome A) (k : A -> outcome B) : outcome B :=
  match m with
  | Ok a => k a
  | Threw e => Threw e
  | OutOfFuel => OutOfFuel
  end.

Notation "x <- m ;; k" := (bind m (fun x => k))
  (at level 100, m at next level, right associativity).

Definition returns {A} (m : outcome A) : Prop := exists a, m = Ok a.

(** ** Strings *)

Module Str.

Fixpoint map (f : ascii -> ascii) (s : string) : string :=
  match s with
  | "" => ""
  | String c s' => String (f c) (map f s')
  end.

Fixpoint all (p : ascii -> bool) (s : string) : bool :=
  match s with
  | "" => true
  | String c s' => p c && all p s'
  end.

Fixpoint filter (p : ascii -> bool) (s : string) : string :=
  match s with
  | "" => ""
  | String c s' => if p c then String c (filter p s') else filter p s'
  end.

Fixpoint dropWhile (p : ascii -> bool) (s : string) : string :=
  match s with
  | "" => ""
  | String c s' => if p c then dropWhile p s' else s
  end.

Definition startsWith (c : ascii) (s : string) : bool :=
  match s with
  | String c' _ => bool_decide (c' = c)
  | "" => false
  end.

(** [Array.prototype.join]. *)
Definition join (sep : string) (parts : list string) : string :=
  String.concat sep parts.

(** [String.prototype.split] on a one-character separator. *)
Fixpoint split (sep : ascii) (s : string) : list string :=
  match s with
  | "" => [""]
  | String c s' =>
      if bool_decide (c = sep) then "" :: split sep s'
      else match split sep s' with
           | x :: xs => String c x :: xs
           | [] => [String c ""]
           end
  end.

Definition between (lo hi : nat) (c : ascii) : bool :=
  ((lo <=? nat_of_ascii c) && (nat_of_ascii c <=? hi))%nat.

Definition isUpper : ascii -> bool := between 65 90.
Definition isLower : ascii -> bool := between 97 122.
Definition isDigit : ascii -> bool := between 48 57.

(** The code units below 256 that [toLowerCase] changes: [A-Z] and the
    capital letters of Latin-1, which are 192 to 222 without the
    multiplication sign 215. *)
Definition isCapital (c : ascii) : bool :=
  isUpper c || (between 192 222 c && negb (nat_of_ascii c =? 215)%nat).

(** [toLowerCase]: each of these letters has its small letter 32 code units
    further on. *)
Definition lowerChar (c : ascii) : ascii :=
  if isCapital c then ascii_of_nat (nat_of_ascii c + 32) else c.
Definition toLowerCase : string -> string := map lowerChar.

End Str.

(** ** Reflections *)

(** Modelled from the spec: the enumeration [ReflectionKind] of [../models],
    which is not among the sources.  A mask [A | B] is the list of its
    members and [kindOf] is membership. *)
Inductive ReflectionKind :=
  | Project | Module | Namespace | Enum | EnumMember | Function
  | Class | Interface | Constructor | Property | Method | Accessor
  | Signature | TypeAlias | TypeParameter | Reference.

Global Instance ReflectionKind_eq_dec : EqDecision ReflectionKind.
Proof. solve_decision. Defined.

(** Modelled from the spec: [ReflectionKind.toKindString], which is not
    among the sources.  It is the name of the kind; its first letter is a
    small one, as the comment of [getDocumentName] has it
    ([mod/ns/class.Foo.html]; the spec writes [Class.Foo.html]). *)
Definition toKindString (k : ReflectionKind) : string :=
  match k with
  | Project => "project" | Module => "module" | Namespace => "namespace"
  | Enum => "enum" | EnumMember => "enumMember"
  | Function => "function" | Class => "class" | Interface => "interface"
  | Constructor => "constructor" | Property => "property"
  | Method => "method" | Accessor => "accessor" | Signature => "signature"
  | TypeAlias => "typeAlias"
  | TypeParameter => "typeParameter" | Reference => "reference"
  end.

(** Object identity of a reflection. *)
Definition Reflection := nat.

(** The fields of a reflection that the router reads.  [container] is the
    answer of [isContainer()]; [children] is absent for [undefined]. *)
Record ReflectionData := {
  kind : ReflectionKind;
  name : string;
  parent : option Reflection;
  container : bool;
  children : option (list Reflection)
}.

Definition Tree := Reflection -> ReflectionData.

Section Reflections.
Variable t : Tree.

(** Modelled from the spec: the methods [kindOf], [isProject] and
    [isContainer] of [Reflection], which are not among the sources.  The
    project is the reflection of kind [Project]. *)
Definition kindOf (r : Reflection) (mask : list ReflectionKind) : bool :=
  bool_decide (kind (t r) ∈ mask).

Definition isProject (r : Reflection) : bool := kindOf r [Project].

Definition isContainer (r : Reflection) : bool := container (t r).

(** A reflection of a well-formed tree, [d] parent links below the
    project: only the project lacks a parent, and it is the root. *)
Inductive rooted : Reflection -> nat -> Prop :=
  | rooted_project r :
      parent (t r) = None -> isProject r = true -> rooted r 0
  | rooted_child r p d :
      parent (t r) = Some p -> isProject r = false -> rooted p d ->
      rooted r (S d).

(** The parent and children links agree. *)
Definition linked : Prop :=
  forall c p, parent (t c) = Some p ->
    isContainer p = true /\ exists cs, children (t p) = Some cs /\ c ∈ cs.

End Reflections.

(** ** Paths *)

(** Modelled from the spec: [dirOf] and [relativePath], the functions
    [dirname], [join] and [relative] of Node's [path.posix], which are not
    among the sources.  [cwd] is the list of segments of the working
    directory, against which [relative] resolves both paths. *)
Module posix.

Definition slash : ascii := "/"%char.
Definition isSlash (c : ascii) : bool := bool_decide (c = slash).

Definition dirname (path : string) : string :=
  match path with
  | "" => "."
  | String c rest =>
      let r := Str.dropWhile (fun x => negb (isSlash x))
                 (Str.dropWhile isSlash (String.rev rest)) in
      match r with
      | "" => if isSlash c then "/" else "."
      | String _ before =>
          if isSlash c && bool_decide (before = "") then "//"
          else String c (String.rev before)
      end
  end.

(** The segment walk shared by [normalize] and [resolve]: empty and [.]
    segments vanish, [..] removes the segment before it.  [stack] holds the
    segments so far, innermost first. *)
Fixpoint walk (aboveRoot : bool) (stack segs : list string) : list string :=
  match segs with
  | [] => rev stack
  | s :: segs' =>
      if bool_decide (s = "") || bool_decide (s = ".") then
        walk aboveRoot stack segs'
      else if bool_decide (s = "..") then
        match stack with
        | top :: stack' =>
            if bool_decide (top = "..") then walk aboveRoot (s :: stack) segs'
            else walk aboveRoot stack' segs'
        | [] =>
            if aboveRoot then walk aboveRoot [s] segs'
            else walk aboveRoot [] segs'
        end
      else walk aboveRoot (s :: stack) segs'
  end.

Definition isAbsolute (path : string) : bool := Str.startsWith slash path.

Definition normalize (path : string) : string :=
  match path with
  | "" => "."
  | _ =>
      let trailing := Str.startsWith slash (String.rev path) in
      let p := Str.join "/" (walk (negb (isAbsolute path)) [] (Str.split slash path)) in
      match p with
      | "" => if isAbsolute path then "/" else if trailing then "./" else "."
      | _ =>
          let p' := if trailing then p +:+ "/" else p in
          if isAbsolute path then "/" +:+ p' else p'
      end
  end.

Definition join (a b : string) : string :=
  match a, b with
  | "", "" => "."
  | "", _ => normalize b
  | _, "" => normalize a
  | _, _ => normalize (a +:+ "/" +:+ b)
  end.

(** The segments of the absolute path [path] resolves to. *)
Definition resolve (cwd : list string) (path : string) : list string :=
  if isAbsolute path then walk false [] (Str.split slash path)
  else walk false (rev cwd) (Str.split slash path).

Fixpoint stripCommon (from to : list string) : list string * list string :=
  match from, to with
  | f :: from', t' :: to' =>
      if bool_decide (f = t') then stripCommon from' to' else (from, to)
  | _, _ => (from, to)
  end.

Definition relative (cwd : list string) (from to : string) : string :=
  if bool_decide (from = to) then ""
  else
    let '(up, down) := stripCommon (resolve cwd from) (resolve cwd to) in
    Str.join "/" (((fun _ => "..") <$> up) ++ down).

End posix.

(** ** The label uniquifier *)

(** Modelled from the spec: the Label Uniquifier, the class [Slugger] of the
    package [marked], which is not among the sources.  It turns a label into
    a normalized identifier, remembers the identifiers it has issued in
    [seen] and appends a counter to a label that was seen before.  [seen] is
    a plain object that is asked with [hasOwnProperty] and written by
    assignment: it is a map from keys to counters into which the key
    [__proto__] cannot be written.  Strings are taken over the code units
    below 256. *)
Module Slugger.

(** White space of [trim] and of the class [\s]: tab, line feed, vertical
    tab, form feed, carriage return, space and no-break space. *)
Definition isSpace (c : ascii) : bool :=
  bool_decide (nat_of_ascii c ∈ [9; 10; 11; 12; 13; 32; 160]).

Definition isLineTerminator (c : ascii) : bool :=
  bool_decide (nat_of_ascii c ∈ [10; 13]).

(** The ASCII punctuation that the second [replace] removes, by code:
    all of it except the hyphen and the underscore. *)
Definition unwanted (c : ascii) : bool :=
  bool_decide (nat_of_ascii c ∈
    [92; 39; 33; 34; 35; 36; 37; 38; 40; 41; 42; 43; 44; 46; 47; 58; 59;
     60; 61; 62; 63; 64; 91; 93; 94; 96; 123; 124; 125; 126]).

Definition trim (s : string) : string :=
  String.rev (Str.dropWhile isSpace
    (String.rev (Str.dropWhile isSpace s))).

(** The number of characters up to and including the first [>], when no
    line terminator comes before it. *)
Fixpoint closeAt (s : string) : option nat :=
  match s with
  | "" => None
  | String c s' =>
      if bool_decide (c = ">"%char) then Some 1
      else if isLineTerminator c then None
      else S <$> closeAt s'
  end.

Definition tagStart (c : ascii) : bool :=
  Str.isLower c || Str.isUpper c ||
  bool_decide (c = "!"%char) || bool_decide (c = "/"%char).

(** Removes every match of [<[!/a-z].*?>]; [skip] characters of a match are
    still to be dropped. *)
Fixpoint stripTags (skip : nat) (s : string) : string :=
  match s with
  | "" => ""
  | String c s' =>
      match skip with
      | S k => stripTags k s'
      | 0 =>
          match s' with
          | String c2 s'' =>
              if bool_decide (c = "<"%char) && tagStart c2 then
                match closeAt s'' with
                | Some n => stripTags (S n) s'
                | None => String c (stripTags 0 s')
                end
              else String c (stripTags 0 s')
          | "" => String c (stripTags 0 s')
          end
      end
  end.

Definition serialize (value : string) : string :=
  Str.map (fun c => if isSpace c then "-"%char else c)
    (Str.filter (fun c => negb (unwanted c))
      (stripTags 0 (trim (Str.toLowerCase value)))).

Definition candidate (originalSlug : string) (occurrence : nat) : string :=
  originalSlug +:+ "-" +:+ pretty occurrence.

(** The [do ... while (seen.hasOwnProperty(slug))] loop, started at
    [occurrence]; it is entered at most once per entry of [seen]. *)
Fixpoint probe (seen : gmap string nat) (originalSlug : string)
    (fuel occurrence : nat) : nat :=
  match fuel with
  | 0 => occurrence
  | S fuel' =>
      if bool_decide (is_Some (seen !! candidate originalSlug occurrence))
      then probe seen originalSlug fuel' (S occurrence)
      else occurrence
  end.

(** The assignment [seen[key] = value]: on a plain object the key
    [__proto__] is the accessor of the prototype, and assigning a number to
    it leaves the object as it is. *)
Definition assign (seen : gmap string nat) (key : string) (value : nat)
    : gmap string nat :=
  if bool_decide (key = "__proto__") then seen else <[key := value]> seen.

Definition getNextSafeSlug (seen : gmap string nat) (originalSlug : string)
    : string * gmap string nat :=
  match seen !! originalSlug with
  | None => (originalSlug, assign (assign seen originalSlug 0) originalSlug 0)
  | Some n =>
      let occurrence := probe seen originalSlug (size seen) (S n) in
      let slug := candidate originalSlug occurrence in
      (slug, assign (assign seen originalSlug occurrence) slug 0)
  end.

Definition slug (seen : gmap string nat) (value : string)
    : string * gmap string nat :=
  getNextSafeSlug seen (serialize value).

(** [new Slugger()]. *)
Definition new : gmap string nat := ∅.

End Slugger.

(** ** The router *)

(** The overridable methods of the class. *)
Record RouterClass := {
  hasOwnDocument : Tree -> Reflection -> bool;
  getAssetDirectory : string;
  getMediaDirectory : string
}.

(** The fields [_sluggers] and [_slugs].  A slugger is held by value under
    the reflection whose page it serves; as [_sluggers] never shares a
    slugger between two keys, [_slugs] is keyed by that reflection too. *)
Record RouterState := {
  _sluggers : gmap Reflection (gmap string nat);
  _slugs : gmap Reflection (gmap Reflection string)
}.

(** [new ThemeRouter(project)]. *)
Definition initial : RouterState := {| _sluggers := ∅; _slugs := ∅ |}.

(** The identifiers of the default page, registered in every new slugger. *)
Definition reserved : list string := ["main"; "search"; "theme"].

Definition seeded : gmap string nat :=
  let s1 := (Slugger.slug Slugger.new "main").2 in
  let s2 := (Slugger.slug s1 "search").2 in
  (Slugger.slug s2 "theme").2.

Definition portable (c : ascii) : bool :=
  Str.isUpper c || Str.isLower c || Str.isDigit c ||
  bool_decide (c = "."%char) || bool_decide (c = "_"%char) ||
  bool_decide (c = "-"%char).

(** [name.replace(/[^A-Za-z0-9._-]|^-/g, "_")] *)
Definition _getSafeFilename (name : string) : string :=
  match name with
  | "" => ""
  | String c rest =>
      String (if portable c && negb (bool_decide (c = "-"%char)) then c
              else "_"%char)
             (Str.map (fun c => if portable c then c else "_"%char) rest)
  end.

(** A segment of a path made of portable characters only, not starting
    with a hyphen. *)
Definition safeSegment (s : string) : bool :=
  Str.all portable s && negb (Str.startsWith "-"%char s).

(** The character that [_getSafeFilename] leaves at index [i] for [c]. *)
Definition sanitized (i : nat) (c : ascii) : ascii :=
  if portable c && negb (bool_decide (i = 0) && bool_decide (c = "-"%char))
  then c else "_"%char.

(** JavaScript truthiness of the optional argument [header]. *)
Definition truthy (header : option string) : bool :=
  match header with
  | Some h => negb (bool_decide (h = ""))
  | None => false
  end.

Section Router.
Variable R : RouterClass.
Variable t : Tree.
Variable cwd : list string.
Variable fuel : nat.

Fixpoint _getReflectionWithDocument_loop (n : nat) (reflection : Reflection)
    : outcome Reflection :=
  match n with
  | 0 => OutOfFuel
  | S n' =>
      if hasOwnDocument R t reflection then Ok reflection
      else match parent (t reflection) with
           | None => Threw BrokenAncestryError
           | Some p => _getReflectionWithDocument_loop n' p
           end
  end.

Definition _getReflectionWithDocument (reflection : Reflection)
    : outcome Reflection :=
  _getReflectionWithDocument_loop fuel reflection.

Definition _anyChildrenHaveOwnDocument (reflection : Reflection) : bool :=
  if isContainer t reflection then
    match children (t reflection) with
    | Some cs => existsb (hasOwnDocument R t) cs
    | None => false
    end
  else false.

Definition getChildrenInPage (reflection : Reflection) : list Reflection :=
  if isContainer t reflection then
    match children (t reflection) with
    | Some cs => List.filter (fun child => negb (hasOwnDocument R t child)) cs
    | None => []
    end
  else [].

Definition getChildrenNotInPage (reflection : Reflection)
    : list Reflection :=
  if isContainer t reflection then
    match children (t reflection) with
    | Some cs => List.filter (fun child => hasOwnDocument R t child) cs
    | None => []
    end
  else [].

(** The loop [while (docReflection.parent)] of [getDocumentName]; answers
    the reflection it stops at and [parts]. *)
Fixpoint getDocumentName_loop (n : nat) (docReflection : Reflection)
    (parts : list string) : outcome (Reflection * list string) :=
  match n with
  | 0 => OutOfFuel
  | S n' =>
      match parent (t docReflection) with
      | Some p =>
          getDocumentName_loop n' p
            (_getSafeFilename (name (t docReflection)) :: parts)
      | None => Ok (docReflection, parts)
      end
  end.

Definition getDocumentName (reflection : Reflection) : outcome string :=
  pageReflection <- _getReflectionWithDocument reflection ;;
  walked <- getDocumentName_loop fuel pageReflection [] ;;
  let docReflection := walked.1 in
  let parts := walked.2 in
  if negb (isProject t docReflection) then Threw NonProjectRootError
  else if _anyChildrenHaveOwnDocument pageReflection
          || isProject t pageReflection then
    Ok (Str.join "/" (parts ++ ["index.html"]))
  else
    let fileName :=
      toKindString (kind (t pageReflection)) +:+ "." +:+
      _getSafeFilename (name (t pageReflection)) +:+ ".html" in
    Ok (Str.join "/" (removelast parts ++ [fileName])).

(** The loop [while (reflection !== docReflection)] of [createSlug]. *)
Fixpoint createSlug_loop (n : nat) (reflection docReflection : Reflection)
    (parts : list string) : outcome (list string) :=
  match n with
  | 0 => OutOfFuel
  | S n' =>
      if bool_decide (reflection = docReflection) then Ok parts
      else
        let parts' :=
          if negb (kindOf t reflection [Signature])
          then name (t reflection) :: parts else parts in
        match parent (t reflection) with
        | None => Threw BrokenAncestryError
        | Some p => createSlug_loop n' p docReflection parts'
        end
  end.

Definition createSlug (st : RouterState) (reflection : Reflection)
    (header : option string) : outcome (string * RouterState) :=
  let targetReflection := reflection in
  docReflection <- _getReflectionWithDocument reflection ;;
  if bool_decide (docReflection = reflection) && negb (truthy header)
  then Ok ("", st)
  else
    (* the slugger of the page, created and seeded if there is none *)
    let slugger := default seeded (_sluggers st !! docReflection) in
    let sluggers := <[docReflection := slugger]> (_sluggers st) in
    if truthy header then
      let issued := Slugger.slug slugger (default "" header) in
      Ok (issued.1,
          {| _sluggers := <[docReflection := issued.2]> sluggers;
             _slugs := _slugs st |})
    else
      parts <- createSlug_loop fuel reflection docReflection [] ;;
      let name := Str.join "-" parts in
      let slugs := default ∅ (_slugs st !! docReflection) in
      match slugs !! targetReflection with
      | Some slug =>
          Ok (slug,
              {| _sluggers := sluggers;
                 _slugs := <[docReflection :=
                               <[targetReflection := slug]> slugs]>
                             (_slugs st) |})
      | None =>
          let issued := Slugger.slug slugger name in
          Ok (issued.1,
              {| _sluggers := <[docReflection := issued.2]> sluggers;
                 _slugs := <[docReflection :=
                               <[targetReflection := issued.1]> slugs]>
                             (_slugs st) |})
      end.

Definition createLink (st : RouterState) (from to : Reflection)
    : outcome (string * RouterState) :=
  fromPage <- getDocumentName from ;;
  toPage <- getDocumentName to ;;
  slugged <- createSlug st to None ;;
  let slug := slugged.1 in
  Ok (posix.relative cwd (posix.dirname fromPage) toPage +:+
        (if bool_decide (slug = "") then "" else "#" +:+ slug),
      slugged.2).

Definition createAssetLink (from : Reflection) (asset : string)
    : outcome string :=
  docReflection <- _getReflectionWithDocument from ;;
  documentName <- getDocumentName docReflection ;;
  let reflectionDir := posix.dirname documentName in
  Ok (posix.relative cwd reflectionDir
        (posix.join (getAssetDirectory R) asset)).

Definition createMediaLink (from : Reflection) (media : string)
    : outcome string :=
  docReflection <- _getReflectionWithDocument from ;;
  documentName <- getDocumentName docReflection ;;
  let reflectionDir := posix.dirname documentName in
  Ok (posix.relative cwd reflectionDir
        (posix.join (getAssetDirectory R) media)).

End Router.

(** The class [ThemeRouter]. *)
Definition ThemeRouter : RouterClass := {|
  hasOwnDocument t reflection :=
    kindOf t reflection [Project; Module; Namespace; Class; Interface];
  getAssetDirectory := "assets";
  getMediaDirectory := "media"
|}.

(** The class [MinimalThemeRouter extends ThemeRouter]. *)
Definition MinimalThemeRouter : RouterClass := {|
  hasOwnDocument t reflection := isProject t reflection;
  getAssetDirectory := getAssetDirectory ThemeRouter;
  getMediaDirectory := getMediaDirectory ThemeRouter
|}.

(** ** What a router has seen *)

(** The slugger serving the page of [page]; a page that has none yet gets a
    freshly seeded one on first use. *)
Definition sluggerOf (st : RouterState) (page : Reflection)
    : gmap string nat :=
  default seeded (_sluggers st !! page).

(** The slugs remembered on the page of [page]. *)
Definition slugsOf (st : RouterState) (page : Reflection)
    : gmap Reflection string :=
  default ∅ (_slugs st !! page).

(** The slug remembered for [target] on the page of [page]. *)
Definition memo (st : RouterState) (page target : Reflection)
    : option string :=
  slugsOf st page !! target.

(** What one call does to the slugger and the remembered slugs of a page:
    nothing, or it issues a slug, which it may remember for a reflection
    that had none. *)
Inductive pageStep (seen : gmap string nat) (slugs : gmap Reflection string)
    : gmap string nat -> gmap Reflection string -> Prop :=
  | page_untouched : pageStep seen slugs seen slugs
  | page_issued value :
      pageStep seen slugs (Slugger.slug seen value).2 slugs
  | page_remembered value target :
      slugs !! target = None ->
      pageStep seen slugs (Slugger.slug seen value).2
        (<[target := (Slugger.slug seen value).1]> slugs).

(** A string without upper-case letters: equal strings, up to case, of this
    kind are equal. *)
Definition lowered (s : string) : bool :=
  Str.all (fun c => negb (Str.isCapital c)) s.

(** What holds of the slugger and of the remembered slugs of every page.
    The slug [__proto__] is set apart: the slugger cannot hold it. *)
Record pageInvariant (seen : gmap string nat)
    (slugs : gmap Reflection string) : Prop := {
  reserved_seen : forall r, r ∈ reserved -> is_Some (seen !! r);
  seen_lowered : forall k, is_Some (seen !! k) -> lowered k = true;
  slugs_seen : forall n s,
    slugs !! n = Some s -> s <> "__proto__" -> is_Some (seen !! s);
  slugs_lowered : forall n s,
    slugs !! n = Some s -> lowered s = true /\ s ∉ reserved;
  slugs_apart : forall n1 n2 s,
    slugs !! n1 = Some s -> slugs !! n2 = Some s -> s <> "__proto__" ->
    n1 = n2
}.

Definition invariant (st : RouterState) : Prop :=
  forall page,
    pageInvariant (sluggerOf st page) (slugsOf st page).

Section Calls.
Variable R : RouterClass.
Variable t : Tree.

(** One call that may change the router: the other methods only read. *)
Inductive call : RouterState -> RouterState -> Prop :=
  | call_createSlug fuel st reflection header slug st' :
      createSlug R t fuel st reflection header = Ok (slug, st') ->
      call st st'
  | call_createLink cwd fuel st from to link st' :
      createLink R t cwd fuel st from to = Ok (link, st') ->
      call st st'.

(** Any sequence of calls. *)
Definition calls : RouterState -> RouterState -> Prop := rtc call.

(** [lineage n l r]: [l] lists [n] and its ancestors below the parentless
    reflection [r], innermost first. *)
Inductive lineage : Reflection -> list Reflection -> Reflection -> Prop :=
  | lineage_top r : parent (t r) = None -> lineage r [] r
  | lineage_up n p l r :
      parent (t n) = Some p -> lineage p l r -> lineage n (n :: l) r.

(** [n] reaches [x] along parent links. *)
Inductive ancestor : Reflection -> Reflection -> Prop :=
  | ancestor_self n : ancestor n n
  | ancestor_parent n p x :
      parent (t n) = Some p -> ancestor p x -> ancestor n x.

(** Every reflection from [n] up to, and excluding, [page] is a
    signature. *)
Inductive signaturesUpTo (page : Reflection) : Reflection -> Prop :=
  | signatures_none : signaturesUpTo page page
  | signatures_more n p :
      n <> page -> kindOf t n [Signature] = true ->
      parent (t n) = Some p -> signaturesUpTo page p ->
      signaturesUpTo page n.

(** The tree is at fault for the assertion [e] raised on behalf of [n]. *)
Definition malformed (n : Reflection) (e : AssertionError) : Prop :=
  match e with
  | BrokenAncestryError =>
      exists x, ancestor n x /\ parent (t x) = None /\
                hasOwnDocument R t x = false
  | NonProjectRootError =>
      exists x, ancestor n x /\ parent (t x) = None /\
                isProject t x = false
  end.

(** The segment that [getDocumentName] makes of a reflection. *)
Definition safeName (x : Reflection) : string :=
  _getSafeFilename (name (t x)).

(** The file of a page that is not a directory. *)
Definition fileName (x : Reflection) : string :=
  toKindString (kind (t x)) +:+ "." +:+ safeName x +:+ ".html".

(** A page that is written as the [index.html] of a directory. *)
Definition isDirectory (x : Reflection) : bool :=
  _anyChildrenHaveOwnDocument R t x || isProject t x.

(** A page that is written as a file of its parent's directory. *)
Definition leafDocument (x : Reflection) : bool :=
  hasOwnDocument R t x && negb (isDirectory x).

(** Invariant I2: what lies below a reflection without a page has no page
    either. *)
Definition downwardConsistent : Prop :=
  forall c p, parent (t c) = Some p ->
    hasOwnDocument R t c = true -> hasOwnDocument R t p = true.

(** A reflection with a document that has a parent is among the children
    of that parent, which is a container. *)
Definition ownersLinked : Prop :=
  forall c p, parent (t c) = Some p -> hasOwnDocument R t c = true ->
    isContainer t p = true /\
    exists cs, children (t p) = Some cs /\ c ∈ cs.

(** Two reflections with documents under one parent differ in their
    sanitized names, or are two leaf documents of different kinds. *)
Definition ownersApart : Prop :=
  forall x y p, x <> y ->
    parent (t x) = Some p -> parent (t y) = Some p ->
    hasOwnDocument R t x = true -> hasOwnDocument R t y = true ->
    safeName x <> safeName y \/
    (kind (t x) <> kind (t y) /\
     leafDocument x = true /\ leafDocument y = true).

End Calls.

(** ** Example trees *)

Definition node (k : ReflectionKind) (n : string) (p : option Reflection)
    (cs : list Reflection) : ReflectionData :=
  {| kind := k; name := n; parent := p; container := true;
     children := Some cs |}.

(** An identity that no tree below uses: a lone reference. *)
Definition detached : ReflectionData :=
  {| kind := Reference; name := ""; parent := None; container := false;
     children := None |}.

(** Project [MyLib] > Module [core] > Class [Foo] > Method [bar]. *)
Definition scenario : Tree := fun r =>
  match r with
  | 0 => node Project "MyLib" None [1]
  | 1 => node Module "core" (Some 0) [2]
  | 2 => node Class "Foo" (Some 1) [3]
  | 3 => node Method "bar" (Some 2) []
  | _ => detached
  end.

(** The scenario with a property [Bar] next to the method [bar]. *)
Definition caseTwins : Tree := fun r =>
  match r with
  | 0 => node Project "MyLib" None [1]
  | 1 => node Module "core" (Some 0) [2]
  | 2 => node Class "Foo" (Some 1) [3; 4]
  | 3 => node Method "bar" (Some 2) []
  | 4 => node Property "Bar" (Some 2) []
  | _ => detached
  end.

(** Project [lib] with the classes [Foo$] and [Foo_]. *)
Definition clash : Tree := fun r =>
  match r with
  | 0 => node Project "lib" None [1; 2]
  | 1 => node Class "Foo$" (Some 0) []
  | 2 => node Class "Foo_" (Some 0) []
  | _ => detached
  end.

(** Project [lib] > Module [core] with the interface [Foo] and the
    namespace [Foo]. *)
Definition merged : Tree := fun r =>
  match r with
  | 0 => node Project "lib" None [1]
  | 1 => node Module "core" (Some 0) [2; 3]
  | 2 => node Interface "Foo" (Some 1) []
  | 3 => node Namespace "Foo" (Some 1) []
  | _ => detached
  end.

(** Project [lib] > Interface [Handler] with its call signature. *)
Definition callable : Tree := fun r =>
  match r with
  | 0 => node Project "lib" None [1]
  | 1 => node Interface "Handler" (Some 0) []
  | 2 => {| kind := Signature; name := "Handler"; parent := Some 1;
            container := false; children := None |}
  | _ => detached
  end.

(** Project [lib] > Module [core] with the interface [Foo], which has two
    call signatures, and the namespace [Foo]. *)
Definition overloaded : Tree := fun r =>
  match r with
  | 0 => node Project "lib" None [1]
  | 1 => node Module "core" (Some 0) [2; 3]
  | 2 => node Interface "Foo" (Some 1) []
  | 3 => node Namespace "Foo" (Some 1) []
  | 4 => {| kind := Signature; name := "Foo"; parent := Some 2;
            container := false; children := None |}
  | 5 => {| kind := Signature; name := "Foo"; parent := Some 2;
            container := false; children := None |}
  | _ => detached
  end.

(** Project [lib] > Interface [JQ] with the property [$] and a call
    signature. *)
Definition dollar : Tree := fun r =>
  match r with
  | 0 => node Project "lib" None [1]
  | 1 => node Interface "JQ" (Some 0) [2]
  | 2 => node Property "$" (Some 1) []
  | 3 => {| kind := Signature; name := "JQ"; parent := Some 1;
            container := false; children := None |}
  | _ => detached
  end.

(** The router a call leaves behind. *)
Definition stateAfter (m : outcome (string * RouterState)) : RouterState :=
  match m with
  | Ok (_, st) => st
  | _ => initial
  end.

(** * Properties *)

(** ** Paths *)

Lemma stripCommon_app (pre a b : list string) :
  posix.stripCommon (pre ++ a) (pre ++ b) = posix.stripCommon a b.
Proof.
  induction pre as [|s pre IH]; simpl; [done|].
  by rewrite bool_decide_eq_true_2.
Qed.

Lemma stripCommon_prefix (pre b : list string) :
  posix.stripCommon pre (pre ++ b) = ([], b).
Proof.
  rewrite <- (app_nil_r pre) at 1. rewrite stripCommon_app. by destruct b.
Qed.

(** From a directory directly below the working directory, a file of the
    working directory is one level up. *)
Lemma relative_up (cwd : list string) :
  posix.relative cwd "core" "index.html" = "../index.html".
Proof.
  unfold posix.relative, posix.resolve. simpl.
  rewrite rev_involutive, stripCommon_app. reflexivity.
Qed.


(** From the working directory itself, a file of a directory directly below
    it is reached by going down. *)
Lemma relative_assets (cwd : list string) :
  posix.relative cwd "." "assets/logo.png" = "assets/logo.png".
Proof.
  unfold posix.relative, posix.resolve. simpl.
  rewrite rev_involutive, <- app_assoc, stripCommon_prefix. reflexivity.
Qed.

Lemma relative_media (cwd : list string) :
  posix.relative cwd "." "media/logo.png" = "media/logo.png".
Proof.
  unfold posix.relative, posix.resolve. simpl.
  rewrite rev_involutive, <- app_assoc, stripCommon_prefix. reflexivity.
Qed.


(** ** The scenario of the specification *)

(** C6, as stated, fails on the name of the page of the class: the file
    of a page is named after the kind with a small first letter, so that the
    page of [Foo] is [core/class.Foo.html] and not [core/Class.Foo.html]. *)
Lemma scenario_class_file_is_lower_case :
  getDocumentName ThemeRouter scenario 4 2 = Ok "core/class.Foo.html" /\
  getDocumentName ThemeRouter scenario 4 3 = Ok "core/class.Foo.html" /\
  "core/class.Foo.html" <> "core/Class.Foo.html".
Proof. split; [reflexivity|]. split; [reflexivity|]. discriminate. Qed.

(** C6, amended: in the tree Project [MyLib] > Module [core] > Class [Foo]
    > Method [bar] the default router names the pages [index.html],
    [core/index.html], [core/class.Foo.html] and, for [bar], the page of
    [Foo]; the slug of [bar] is [bar] on the first and on the second call;
    the slug of the project is empty; the link from [bar] to the project is
    [../index.html], without an anchor.  Four rounds of each loop are
    enough. *)
Theorem scenario_names_slugs_and_link (cwd : list string) (k : nat) :
  let fuel := 4 + k in
  getDocumentName ThemeRouter scenario fuel 0 = Ok "index.html" /\
  getDocumentName ThemeRouter scenario fuel 1 = Ok "core/index.html" /\
  getDocumentName ThemeRouter scenario fuel 2 = Ok "core/class.Foo.html" /\
  getDocumentName ThemeRouter scenario fuel 3 = Ok "core/class.Foo.html" /\
  (exists st1 st2,
     createSlug ThemeRouter scenario fuel initial 3 None = Ok ("bar", st1) /\
     createSlug ThemeRouter scenario fuel st1 3 None = Ok ("bar", st2)) /\
  (forall st, createSlug ThemeRouter scenario fuel st 0 None = Ok ("", st)) /\
  (forall st,
     createLink ThemeRouter scenario cwd fuel st 3 0 =
     Ok ("../index.html", st)).
Proof.
  intros fuel.
  assert (H0 : getDocumentName ThemeRouter scenario fuel 0 = Ok "index.html")
    by (vm_compute; reflexivity).
  assert (H3 : getDocumentName ThemeRouter scenario fuel 3 =
               Ok "core/class.Foo.html") by (vm_compute; reflexivity).
  assert (HS : forall st,
            createSlug ThemeRouter scenario fuel st 0 None = Ok ("", st))
    by reflexivity.
  split; [exact H0|]. split; [vm_compute; reflexivity|].
  split; [vm_compute; reflexivity|]. split; [exact H3|].
  split; [|split; [exact HS|]].
  - set (st1 := stateAfter
                  (createSlug ThemeRouter scenario fuel initial 3 None)).
    exists st1, (stateAfter (createSlug ThemeRouter scenario fuel st1 3 None)).
    split; vm_compute; reflexivity.
  - intros st. unfold createLink. rewrite H3, H0, HS. cbn [bind fst snd].
    change (posix.dirname "core/class.Foo.html") with "core".
    rewrite relative_up. reflexivity.
Qed.

(** ** Media links *)

(** C1: [createMediaLink] asks [getAssetDirectory], not
    [getMediaDirectory]: from the project page of the scenario the default
    router links the media file [logo.png] to [assets/logo.png], whereas the
    relative path to the media directory is [media/logo.png]. *)
Theorem createMediaLink_links_into_assets (cwd : list string) (k : nat) :
  createMediaLink ThemeRouter scenario cwd (1 + k) 0 "logo.png" =
    Ok "assets/logo.png" /\
  posix.relative cwd (posix.dirname "index.html")
    (posix.join (getMediaDirectory ThemeRouter) "logo.png") =
    "media/logo.png" /\
  forall R t fuel from media,
    createMediaLink R t cwd fuel from media =
    createAssetLink R t cwd fuel from media.
Proof.
  split; [|split].
  - change (createMediaLink ThemeRouter scenario cwd (1 + k) 0 "logo.png")
      with (Ok (A := string) (posix.relative cwd "." "assets/logo.png")).
    by rewrite relative_assets.
  - change (posix.relative cwd "." "media/logo.png" = "media/logo.png").
    apply relative_media.
  - reflexivity.
Qed.

(** ** Strings *)

Lemma all_app (p : ascii -> bool) (a b : string) :
  Str.all p (a +:+ b) = Str.all p a && Str.all p b.
Proof.
  induction a as [|c a IH]; [done|].
  change (String c a +:+ b) with (String c (a +:+ b)). simpl.
  by rewrite IH, andb_assoc.
Qed.

Lemma all_map (p : ascii -> bool) (f : ascii -> ascii) (s : string) :
  (forall c, p (f c) = true) -> Str.all p (Str.map f s) = true.
Proof. intros Hf. induction s as [|c s IH]; simpl; [done|]. by rewrite Hf, IH. Qed.

Lemma length_map (f : ascii -> ascii) (s : string) :
  String.length (Str.map f s) = String.length s.
Proof. induction s; simpl; congruence. Qed.

Lemma get_map (f : ascii -> ascii) (s : string) (i : nat) :
  String.get i (Str.map f s) = f <$> String.get i s.
Proof.
  revert i. induction s as [|c s IH]; intros [|i]; simpl; done.
Qed.

(** ** Safe file names *)

Lemma portable_sanitized (i : nat) (c : ascii) : portable (sanitized i c) = true.
Proof.
  unfold sanitized. destruct (portable c) eqn:E; simpl; [|done].
  destruct (negb _); [exact E|done].
Qed.

Lemma _getSafeFilename_all (name : string) :
  Str.all portable (_getSafeFilename name) = true.
Proof.
  destruct name as [|c rest]; [done|]. simpl.
  rewrite all_map.
  - rewrite andb_true_r. destruct (portable c) eqn:E; simpl; [|done].
    by destruct (bool_decide (c = "-"%char)).
  - intros x. by destruct (portable x) eqn:E.
Qed.

Lemma _getSafeFilename_start (name : string) :
  Str.startsWith "-"%char (_getSafeFilename name) = false.
Proof.
  destruct name as [|c rest]; [done|]. simpl.
  destruct (bool_decide (c = "-"%char)) eqn:E.
  - by rewrite andb_false_r.
  - rewrite andb_true_r. destruct (portable c); [|done].
    apply bool_decide_eq_false in E. by apply bool_decide_eq_false_2.
Qed.

Lemma _getSafeFilename_safe (name : string) :
  safeSegment (_getSafeFilename name) = true.
Proof.
  unfold safeSegment.
  by rewrite _getSafeFilename_all, _getSafeFilename_start.
Qed.

Lemma fileName_safe (k : ReflectionKind) (name : string) :
  safeSegment (toKindString k +:+ "." +:+ _getSafeFilename name +:+ ".html")
  = true.
Proof.
  unfold safeSegment. apply andb_true_intro. split.
  - rewrite !all_app, _getSafeFilename_all. by destruct k.
  - by destruct k.
Qed.

Lemma getDocumentName_loop_safe (t : Tree) (n : nat) :
  forall r parts root parts',
    getDocumentName_loop t n r parts = Ok (root, parts') ->
    Forall (fun s => safeSegment s = true) parts ->
    Forall (fun s => safeSegment s = true) parts'.
Proof.
  induction n as [|n IH]; intros r parts root parts' H Hsafe; [done|].
  simpl in H. destruct (parent (t r)) as [p|].
  - eapply IH; [exact H|]. constructor; [apply _getSafeFilename_safe|done].
  - by inversion H; subst.
Qed.

Lemma Forall_removelast {A} (P : A -> Prop) (l : list A) :
  Forall P l -> Forall P (removelast l).
Proof.
  induction 1 as [|x l Hx Hl IH]; simpl; [constructor|].
  destruct l; [constructor|]. by constructor.
Qed.

(** C5: the sanitizer keeps the length of a name and changes character [i]
    to an underscore exactly when it is outside [A-Za-z0-9._-] or is a
    hyphen at index 0; its result is made of characters of that class and
    does not start with a hyphen; and every document name is a
    slash-separated list of segments with these two properties. *)
Theorem filenames_are_safe :
  (forall name,
     Str.all portable (_getSafeFilename name) = true /\
     Str.startsWith "-"%char (_getSafeFilename name) = false /\
     String.length (_getSafeFilename name) = String.length name /\
     forall i, String.get i (_getSafeFilename name) =
               sanitized i <$> String.get i name) /\
  (forall R t fuel reflection path,
     getDocumentName R t fuel reflection = Ok path ->
     exists segments,
       path = Str.join "/" segments /\
       Forall (fun s => safeSegment s = true) segments).
Proof.
  split.
  - intros name. split; [apply _getSafeFilename_all|].
    split; [apply _getSafeFilename_start|].
    destruct name as [|c rest]; [by split; [|intros []]|]. split.
    + simpl. by rewrite length_map.
    + intros [|i]; simpl.
      * reflexivity.
      * rewrite get_map. destruct (String.get i rest); [|done]. simpl.
        unfold sanitized. simpl. by rewrite andb_true_r.
  - intros R t fuel r path H. unfold getDocumentName in H.
    destruct (_getReflectionWithDocument R t fuel r) as [page| |]; [|done..].
    simpl in H.
    destruct (getDocumentName_loop t fuel page []) as [[root parts]| |] eqn:E;
      [|done..].
    simpl in H. apply getDocumentName_loop_safe in E; [|constructor].
    destruct (negb (isProject t root)); [done|].
    destruct (_ || _); inversion H; subst; eexists; (split; [reflexivity|]).
    + apply Forall_app. split; [done|]. by repeat constructor.
    + apply Forall_app. split; [by apply Forall_removelast|].
      repeat constructor. apply fileName_safe.
Qed.

Lemma filenames_are_safe_witness :
  exists segments,
    "core/class.Foo.html" = Str.join "/" segments /\
    Forall (fun s => safeSegment s = true) segments.
Proof.
  apply (proj2 filenames_are_safe ThemeRouter scenario 4 3).
  reflexivity.
Defined.

(** ** The loops *)

Section Loops.
Variable R : RouterClass.
Variable t : Tree.

Lemma ancestor_trans (a b c : Reflection) :
  ancestor t a b -> ancestor t b c -> ancestor t a c.
Proof. induction 1; [done|]. intros. econstructor; eauto. Qed.

Lemma rooted_not_project_child (n p : Reflection) (d : nat) :
  rooted t n d -> parent (t n) = Some p -> isProject t n = false.
Proof. inversion 1; congruence. Qed.

(** The page of a reflection is one of its ancestors and has a document. *)
Lemma owner_found (fuel : nat) :
  forall n page,
    _getReflectionWithDocument_loop R t fuel n = Ok page ->
    ancestor t n page /\ hasOwnDocument R t page = true.
Proof.
  induction fuel as [|fuel IH]; intros n page H; [done|]. simpl in H.
  destruct (hasOwnDocument R t n) eqn:E.
  - inversion H; subst. split; [constructor|done].
  - destruct (parent (t n)) as [p|] eqn:Ep; [|done].
    destruct (IH _ _ H). split; [econstructor; eauto|done].
Qed.

Lemma owner_threw (fuel : nat) :
  forall n e,
    _getReflectionWithDocument_loop R t fuel n = Threw e ->
    malformed R t n e.
Proof.
  induction fuel as [|fuel IH]; intros n e H; [done|]. simpl in H.
  destruct (hasOwnDocument R t n) eqn:E; [done|].
  destruct (parent (t n)) as [p|] eqn:Ep.
  - specialize (IH _ _ H). destruct e; destruct IH as (x & Hx & ?);
      exists x; (split; [econstructor; eauto|done]).
  - inversion H; subst. exists n. repeat split; [constructor|done..].
Qed.

(** An owner is its own page. *)
Lemma owner_self (fuel : nat) (n : Reflection) :
  hasOwnDocument R t n = true ->
  _getReflectionWithDocument_loop R t (S fuel) n = Ok n.
Proof. intros H. simpl. by rewrite H. Qed.

(** More rounds do not change an answer. *)
Lemma owner_more_fuel (fuel : nat) :
  forall n page fuel',
    _getReflectionWithDocument_loop R t fuel n = Ok page -> fuel <= fuel' ->
    _getReflectionWithDocument_loop R t fuel' n = Ok page.
Proof.
  induction fuel as [|fuel IH]; intros n page fuel' H Hle; [done|].
  destruct fuel' as [|fuel']; [lia|]. simpl in *.
  destruct (hasOwnDocument R t n); [done|].
  destruct (parent (t n)); [|done]. apply IH; [done|lia].
Qed.

Lemma walk_more_fuel (fuel : nat) :
  forall n parts res fuel',
    getDocumentName_loop t fuel n parts = Ok res -> fuel <= fuel' ->
    getDocumentName_loop t fuel' n parts = Ok res.
Proof.
  induction fuel as [|fuel IH]; intros n parts res fuel' H Hle; [done|].
  destruct fuel' as [|fuel']; [lia|]. simpl in *.
  destruct (parent (t n)); [|done]. apply IH; [done|lia].
Qed.

Lemma walk_never_throws (fuel : nat) :
  forall n parts e, getDocumentName_loop t fuel n parts <> Threw e.
Proof.
  induction fuel as [|fuel IH]; intros n parts e; [done|]. simpl.
  destruct (parent (t n)); [apply IH|done].
Qed.

Lemma walk_stops_at_top (fuel : nat) :
  forall n parts root parts',
    getDocumentName_loop t fuel n parts = Ok (root, parts') ->
    ancestor t n root /\ parent (t root) = None.
Proof.
  induction fuel as [|fuel IH]; intros n parts root parts' H; [done|].
  simpl in H. destruct (parent (t n)) as [p|] eqn:Ep.
  - destruct (IH _ _ _ _ H). split; [econstructor; eauto|done].
  - inversion H; subst. split; [constructor|done].
Qed.

(** Once the page is found, the loop of [createSlug] reaches it within the
    same number of rounds: its assertion cannot fail. *)
Lemma label_found (fuel : nat) :
  forall n page parts,
    _getReflectionWithDocument_loop R t fuel n = Ok page ->
    returns (createSlug_loop t fuel n page parts).
Proof.
  induction fuel as [|fuel IH]; intros n page parts H; [done|].
  simpl in *. case_bool_decide; [by eexists|].
  destruct (hasOwnDocument R t n); [congruence|].
  destruct (parent (t n)); [|done]. by apply IH.
Qed.

Hypothesis project_has_document :
  forall p, isProject t p = true -> hasOwnDocument R t p = true.

Lemma owner_of_rooted (n : Reflection) (d : nat) :
  rooted t n d ->
  forall fuel, d < fuel ->
    exists page d', _getReflectionWithDocument_loop R t fuel n = Ok page /\
                    rooted t page d' /\ d' <= d.
Proof.
  induction 1 as [r Hp Hk|r p d Hp Hk Hr IH]; intros fuel Hlt;
    (destruct fuel as [|fuel]; [lia|]); simpl.
  - rewrite project_has_document by done.
    exists r, 0. split; [done|]. split; [by constructor|lia].
  - destruct (hasOwnDocument R t r).
    + exists r, (S d). split; [done|]. split; [by econstructor|lia].
    + rewrite Hp. destruct (IH fuel) as (page & d' & ? & ? & ?); [lia|].
      exists page, d'. split; [done|]. split; [done|lia].
Qed.

Lemma walk_of_rooted (n : Reflection) (d : nat) :
  rooted t n d ->
  forall fuel parts, d < fuel ->
    exists root parts',
      getDocumentName_loop t fuel n parts = Ok (root, parts') /\
      isProject t root = true.
Proof.
  induction 1 as [r Hp Hk|r p d Hp Hk Hr IH]; intros fuel parts Hlt;
    (destruct fuel as [|fuel]; [lia|]); simpl; rewrite Hp.
  - by exists r, parts.
  - apply IH. lia.
Qed.

End Loops.

(** ** Which calls return *)

Section Returns.
Variable R : RouterClass.
Variable t : Tree.
Variable cwd : list string.
Variable fuel : nat.

Lemma bind_Ok {A B} (m : outcome A) (k : A -> outcome B) (b : B) :
  bind m k = Ok b -> exists a, m = Ok a /\ k a = Ok b.
Proof. destruct m; simpl; [eauto|done..]. Qed.

Lemma bind_Threw {A B} (m : outcome A) (k : A -> outcome B) e :
  bind m k = Threw e -> m = Threw e \/ exists a, m = Ok a /\ k a = Threw e.
Proof. destruct m; simpl; [eauto|left; congruence|done]. Qed.

Lemma createSlug_returns (st : RouterState) (n page : Reflection)
    (header : option string) :
  _getReflectionWithDocument R t fuel n = Ok page ->
  returns (createSlug R t fuel st n header).
Proof.
  intros H. unfold createSlug. rewrite H. simpl.
  destruct (_ && _); [by eexists|].
  destruct (truthy header); [by eexists|].
  destruct (label_found R t fuel n page [] H) as [parts ->]. simpl.
  destruct (_ !! n); by eexists.
Qed.

Lemma createSlug_threw (st : RouterState) (n : Reflection)
    (header : option string) (e : AssertionError) :
  createSlug R t fuel st n header = Threw e -> malformed R t n e.
Proof.
  intros H. unfold createSlug in H.
  destruct (_getReflectionWithDocument R t fuel n) as [page| |] eqn:E;
    [|simpl in H; inversion H; subst; by eapply owner_threw|done].
  simpl in H. destruct (_ && _); [done|].
  destruct (truthy header); [done|].
  destruct (label_found R t fuel n page [] E) as [parts Hp].
  rewrite Hp in H. simpl in H. by destruct (_ !! n).
Qed.

Lemma malformed_ancestor (n x : Reflection) (e : AssertionError) :
  ancestor t n x -> malformed R t x e -> malformed R t n e.
Proof.
  intros Hnx. destruct e; intros (y & Hy & ?); exists y;
    (split; [by eapply ancestor_trans|done]).
Qed.

Lemma getDocumentName_threw (n : Reflection) (e : AssertionError) :
  getDocumentName R t fuel n = Threw e -> malformed R t n e.
Proof.
  intros H. unfold getDocumentName in H.
  destruct (_getReflectionWithDocument R t fuel n) as [page| |] eqn:E;
    [|simpl in H; inversion H; subst; by eapply owner_threw|done].
  simpl in H.
  destruct (getDocumentName_loop t fuel page []) as [[root parts]| |] eqn:W;
    [|by apply walk_never_throws in W|done].
  simpl in H. destruct (isProject t root) eqn:Hk; simpl in H.
  - by destruct (_ || _).
  - inversion H; subst. apply owner_found in E as [Hn _].
    apply walk_stops_at_top in W as [Hr Hp].
    exists root. split; [by eapply ancestor_trans|done].
Qed.

Lemma getDocumentName_owner (n page : Reflection) :
  _getReflectionWithDocument R t fuel n = Ok page ->
  getDocumentName R t fuel page = getDocumentName R t fuel n.
Proof.
  intros H. unfold getDocumentName. rewrite H.
  destruct fuel as [|k]; [done|].
  apply owner_found in H as [_ H]. unfold _getReflectionWithDocument.
  by rewrite owner_self.
Qed.

Lemma assetLink_threw (n : Reflection) (e : AssertionError) k :
  (page <- _getReflectionWithDocument R t fuel n ;;
   documentName <- getDocumentName R t fuel page ;;
   Ok (k documentName)) = Threw e :> outcome string ->
  malformed R t n e.
Proof.
  intros H.
  destruct (_getReflectionWithDocument R t fuel n) as [page| |] eqn:E;
    [|simpl in H; inversion H; subst; by eapply owner_threw|done].
  simpl in H. rewrite (getDocumentName_owner _ _ E) in H.
  destruct (getDocumentName R t fuel n) eqn:G; simpl in H; [done| |done].
  inversion H; subst. by apply getDocumentName_threw.
Qed.

Hypothesis project_has_document :
  forall p, isProject t p = true -> hasOwnDocument R t p = true.

Lemma getDocumentName_returns (n : Reflection) (d : nat) :
  rooted t n d -> d < fuel -> returns (getDocumentName R t fuel n).
Proof.
  intros Hr Hlt.
  destruct (owner_of_rooted R t project_has_document n d Hr fuel Hlt)
    as (page & d' & Hpage & Hr' & Hle).
  destruct (walk_of_rooted t page d' Hr' fuel []) as (root & parts & W & Hk);
    [lia|].
  unfold getDocumentName, _getReflectionWithDocument.
  rewrite Hpage. simpl. rewrite W. simpl. rewrite Hk. simpl.
  destruct (_ || _); by eexists.
Qed.

Lemma assetLink_returns (n : Reflection) (d : nat) k :
  rooted t n d -> d < fuel ->
  returns (page <- _getReflectionWithDocument R t fuel n ;;
           documentName <- getDocumentName R t fuel page ;;
           Ok (k documentName) : outcome string).
Proof.
  intros Hr Hlt.
  destruct (owner_of_rooted R t project_has_document n d Hr fuel Hlt)
    as (page & d' & Hpage & Hr' & Hle).
  unfold _getReflectionWithDocument at 1. rewrite Hpage. simpl.
  destruct (getDocumentName_returns page d' Hr') as [s ->]; [lia|].
  by eexists.
Qed.

End Returns.

Lemma ThemeRouter_project (t : Tree) (p : Reflection) :
  isProject t p = true -> hasOwnDocument ThemeRouter t p = true.
Proof.
  unfold isProject, kindOf. simpl. intros H%bool_decide_eq_true.
  apply bool_decide_eq_true. apply list_elem_of_singleton in H.
  rewrite H. by left.
Qed.

Lemma MinimalThemeRouter_project (t : Tree) (p : Reflection) :
  isProject t p = true -> hasOwnDocument MinimalThemeRouter t p = true.
Proof. done. Qed.

Lemma scenario_rooted : rooted scenario 3 3.
Proof. repeat (econstructor; try reflexivity). Qed.

(** C8: as long as the policy gives the project a page, every call on a
    reflection of a well-formed tree returns, given rounds for the depth of
    the reflection; and in whatever tree, a call that fails has hit one of
    two conditions, a parentless ancestor without a page
    ([BrokenAncestryError]) or a parentless ancestor that is not the
    project ([NonProjectRootError]).  The policy, the sanitizer, the
    uniquifier and the two partitions of the children are total
    functions. *)
Theorem only_malformed_trees_fail (R : RouterClass) (t : Tree)
    (cwd : list string) (fuel : nat)
    (project_has_document :
       forall p, isProject t p = true -> hasOwnDocument R t p = true) :
  (forall n d, rooted t n d -> d < fuel ->
     returns (_getReflectionWithDocument R t fuel n) /\
     returns (getDocumentName R t fuel n) /\
     (forall st header, returns (createSlug R t fuel st n header)) /\
     (forall st to d', rooted t to d' -> d' < fuel ->
        returns (createLink R t cwd fuel st n to) /\
        returns (createLink R t cwd fuel st to n)) /\
     (forall asset, returns (createAssetLink R t cwd fuel n asset)) /\
     (forall media, returns (createMediaLink R t cwd fuel n media))) /\
  (forall n e,
     (_getReflectionWithDocument R t fuel n = Threw e -> malformed R t n e) /\
     (getDocumentName R t fuel n = Threw e -> malformed R t n e) /\
     (forall st header,
        createSlug R t fuel st n header = Threw e -> malformed R t n e) /\
     (forall st to,
        createLink R t cwd fuel st n to = Threw e ->
        malformed R t n e \/ malformed R t to e) /\
     (forall asset,
        createAssetLink R t cwd fuel n asset = Threw e -> malformed R t n e) /\
     (forall media,
        createMediaLink R t cwd fuel n media = Threw e -> malformed R t n e)).
Proof.
  assert (Hslug : forall n d, rooted t n d -> d < fuel ->
            forall st header, returns (createSlug R t fuel st n header)).
  { intros n d Hr Hlt st header.
    destruct (owner_of_rooted R t project_has_document n d Hr fuel Hlt)
      as (page & d' & Hpage & _).
    by eapply createSlug_returns. }
  assert (Hlink : forall n d to d', rooted t n d -> d < fuel ->
            rooted t to d' -> d' < fuel ->
            forall st, returns (createLink R t cwd fuel st n to)).
  { intros n d to d' Hr Hlt Hr' Hlt' st. unfold createLink.
    destruct (getDocumentName_returns R t fuel project_has_document n d)
      as [a ->]; [done..|].
    destruct (getDocumentName_returns R t fuel project_has_document to d')
      as [b ->]; [done..|].
    destruct (Hslug to d' Hr' Hlt' st None) as [c ->]. by eexists. }
  split.
  - intros n d Hr Hlt. repeat split.
    + destruct (owner_of_rooted R t project_has_document n d Hr fuel Hlt)
        as (page & d' & Hpage & _). by exists page.
    + by eapply getDocumentName_returns.
    + by eapply Hslug.
    + by eapply Hlink.
    + by eapply Hlink.
    + intros asset. by eapply assetLink_returns.
    + intros media. by eapply assetLink_returns.
  - intros n e. repeat split.
    + apply owner_threw.
    + apply getDocumentName_threw.
    + intros st header. apply createSlug_threw.
    + intros st to H. unfold createLink in H.
      apply bind_Threw in H as [Ha|(a & _ & Ha)];
        [left; by eapply getDocumentName_threw|].
      apply bind_Threw in Ha as [Hb|(b & _ & Hb)];
        [right; by eapply getDocumentName_threw|].
      apply bind_Threw in Hb as [Hc|(c & _ & Hc)]; [|done].
      right. by eapply createSlug_threw.
    + intros asset. apply assetLink_threw.
    + intros media. apply assetLink_threw.
Qed.

Lemma only_malformed_trees_fail_witness :
  returns (getDocumentName ThemeRouter scenario 4 3) /\
  returns (createLink ThemeRouter scenario [] 4 initial 3 0).
Proof.
  destruct (only_malformed_trees_fail ThemeRouter scenario [] 4
              (ThemeRouter_project scenario)) as [H _].
  destruct (H 3 3 scenario_rooted ltac:(lia)) as (_ & Hname & _ & Hlink & _).
  split; [exact Hname|].
  refine (proj1 (Hlink initial 0 0 _ ltac:(lia))).
  by constructor.
Defined.

(** ** The single-page router *)

(** C9: [MinimalThemeRouter] gives a page to the project only, which in a
    well-formed tree is the reflection at depth 0; every reflection of such
    a tree is then documented in [index.html]; the two directories are
    those of [ThemeRouter], and all other methods are the ones of
    [ThemeRouter] run with this policy. *)
Theorem minimal_router_has_one_page :
  (forall t n, hasOwnDocument MinimalThemeRouter t n = isProject t n) /\
  (forall t n d, rooted t n d ->
     (hasOwnDocument MinimalThemeRouter t n = true <-> d = 0)) /\
  (forall t fuel n d, rooted t n d -> d < fuel ->
     getDocumentName MinimalThemeRouter t fuel n = Ok "index.html") /\
  getAssetDirectory MinimalThemeRouter = getAssetDirectory ThemeRouter /\
  getMediaDirectory MinimalThemeRouter = getMediaDirectory ThemeRouter.
Proof.
  split; [done|]. split; [|split; [|done]].
  - intros t n d Hr. simpl. inversion Hr; subst; split; intros; congruence.
  - intros t fuel n d Hr Hlt.
    destruct (owner_of_rooted MinimalThemeRouter t
                (MinimalThemeRouter_project t) n d Hr fuel Hlt)
      as (page & d' & Hpage & Hr' & Hle).
    pose proof (owner_found _ _ _ _ _ Hpage) as [_ Hk]. simpl in Hk.
    assert (Hp : parent (t page) = None) by (inversion Hr'; congruence).
    unfold getDocumentName, _getReflectionWithDocument. rewrite Hpage.
    destruct fuel as [|k]; [lia|]. simpl. rewrite Hp. simpl. rewrite Hk.
    simpl. by rewrite orb_true_r.
Qed.

Lemma minimal_router_has_one_page_witness :
  getDocumentName MinimalThemeRouter scenario 4 3 = Ok "index.html".
Proof.
  destruct minimal_router_has_one_page as (_ & _ & H & _).
  apply (H scenario 4 3 3 scenario_rooted). lia.
Defined.

(** ** The uniquifier *)

Lemma all_filter (p q : ascii -> bool) (s : string) :
  Str.all p s = true -> Str.all p (Str.filter q s) = true.
Proof.
  induction s as [|c s IH]; simpl; [done|].
  intros [Hc Hs]%andb_prop. destruct (q c); simpl; [rewrite Hc|]; auto.
Qed.

Lemma all_dropWhile (p q : ascii -> bool) (s : string) :
  Str.all p s = true -> Str.all p (Str.dropWhile q s) = true.
Proof.
  induction s as [|c s IH]; simpl; [done|].
  intros H. destruct (q c); [|done]. apply andb_prop in H as [_ H]. auto.
Qed.

Lemma all_rev_app (p : ascii -> bool) (s acc : string) :
  Str.all p (String.rev_app s acc) = Str.all p s && Str.all p acc.
Proof.
  revert acc. induction s as [|c s IH]; intros acc; simpl; [done|].
  rewrite IH. simpl. by destruct (p c), (Str.all p s).
Qed.

Lemma all_rev (p : ascii -> bool) (s : string) :
  Str.all p (String.rev s) = Str.all p s.
Proof. unfold String.rev. rewrite all_rev_app. simpl. by rewrite andb_true_r. Qed.

Lemma all_map_keep (p : ascii -> bool) (f : ascii -> ascii) (s : string) :
  (forall c, p c = true -> p (f c) = true) ->
  Str.all p s = true -> Str.all p (Str.map f s) = true.
Proof.
  intros Hf. induction s as [|c s IH]; simpl; [done|].
  intros [Hc Hs]%andb_prop. by rewrite Hf, IH.
Qed.

Lemma all_stripTags (p : ascii -> bool) (s : string) :
  forall skip, Str.all p s = true ->
    Str.all p (Slugger.stripTags skip s) = true.
Proof.
  induction s as [|c s IH]; intros skip; simpl; [done|].
  intros [Hc Hs]%andb_prop. destruct skip as [|k]; [|by apply IH].
  destruct s as [|c2 s2]; [simpl; by rewrite Hc|].
  destruct (_ && _).
  - destruct (Slugger.closeAt s2); [by apply IH|].
    cbn [Str.all]. rewrite Hc. by apply IH.
  - cbn [Str.all]. rewrite Hc. by apply IH.
Qed.

Lemma lowerChar_lowered (c : ascii) :
  negb (Str.isCapital (Str.lowerChar c)) = true.
Proof. destruct c as [[] [] [] [] [] [] [] []]; reflexivity. Qed.

Lemma lowered_toLowerCase (s : string) :
  lowered s = true -> Str.toLowerCase s = s.
Proof.
  unfold lowered, Str.toLowerCase. induction s as [|c s IH]; simpl; [done|].
  intros [Hc Hs]%andb_prop. rewrite IH by done. unfold Str.lowerChar.
  by destruct (Str.isCapital c).
Qed.

Lemma serialize_lowered (value : string) :
  lowered (Slugger.serialize value) = true.
Proof.
  unfold lowered, Slugger.serialize, Slugger.trim.
  apply all_map_keep; [intros c Hc; by destruct (Slugger.isSpace c)|].
  apply all_filter, all_stripTags.
  rewrite all_rev. apply all_dropWhile. rewrite all_rev. apply all_dropWhile.
  apply all_map. apply lowerChar_lowered.
Qed.

Lemma pretty_N_go_lowered (x : N) :
  forall s, lowered s = true -> lowered (pretty_N_go x s) = true.
Proof.
  induction (N.lt_wf_0 x) as [x _ IH]; intros s Hs.
  assert (x = 0 \/ 0 < x)%N as [->|Hx] by lia; [done|].
  rewrite pretty_N_go_step by done. apply IH; [by apply N.div_lt|].
  unfold lowered. cbn [Str.all]. fold (lowered s). rewrite Hs, andb_true_r.
  unfold pretty_N_char. by repeat case_match.
Qed.

Lemma pretty_lowered (n : nat) : lowered (pretty n) = true.
Proof.
  unfold pretty, pretty_nat, pretty, pretty_N.
  case_decide; [done|]. by apply pretty_N_go_lowered.
Qed.

Lemma candidate_lowered (originalSlug : string) (occurrence : nat) :
  lowered originalSlug = true ->
  lowered (Slugger.candidate originalSlug occurrence) = true.
Proof.
  intros H. unfold lowered, Slugger.candidate in *.
  rewrite !all_app, H. fold (lowered (pretty occurrence)).
  by rewrite pretty_lowered.
Qed.

Lemma candidate_inj (originalSlug : string) (a b : nat) :
  Slugger.candidate originalSlug a = Slugger.candidate originalSlug b ->
  a = b.
Proof.
  unfold Slugger.candidate. intros H.
  apply (inj (String.app originalSlug)), (inj (String.app "-")) in H.
  by apply (inj pretty).
Qed.

Lemma app_nil_r_string (s : string) : s +:+ "" = s.
Proof.
  induction s as [|c s IH]; [done|].
  change (String c s +:+ "") with (String c (s +:+ "")). by rewrite IH.
Qed.

Lemma candidate_not_original (originalSlug : string) (occurrence : nat) :
  Slugger.candidate originalSlug occurrence <> originalSlug.
Proof.
  unfold Slugger.candidate. intros H.
  rewrite <- (app_nil_r_string originalSlug) in H at 2.
  by apply (inj (String.app originalSlug)) in H.
Qed.

(** The loop stops at a free candidate: it meets every taken candidate at
    most once, and there are fewer of them than rounds. *)
Lemma probe_free (seen : gmap string nat) (originalSlug : string) :
  forall fuel occurrence (taken : gset string),
    (forall k, occurrence <= k ->
       is_Some (seen !! Slugger.candidate originalSlug k) ->
       Slugger.candidate originalSlug k ∈ taken) ->
    size taken < fuel ->
    seen !! Slugger.candidate originalSlug
              (Slugger.probe seen originalSlug fuel occurrence) = None.
Proof.
  induction fuel as [|fuel IH]; intros occ taken Htaken Hsize; [lia|].
  simpl. case_bool_decide as Hin.
  - apply (IH _ (taken ∖ {[Slugger.candidate originalSlug occ]})).
    + intros k Hk Hs. apply elem_of_difference. split; [apply Htaken; [lia|done]|].
      intros Heq%elem_of_singleton%candidate_inj. lia.
    + assert (Slugger.candidate originalSlug occ ∈ taken)
        by (apply Htaken; [lia|done]).
      rewrite size_difference by set_solver. rewrite size_singleton.
      assert (size taken <> 0) by (apply size_non_empty_iff; set_solver).
      lia.
  - by apply eq_None_not_Some.
Qed.

Lemma slug_fresh (seen : gmap string nat) (value : string) :
  seen !! (Slugger.slug seen value).1 = None.
Proof.
  unfold Slugger.slug, Slugger.getNextSafeSlug.
  destruct (seen !! Slugger.serialize value) as [n|] eqn:E; simpl; [|done].
  apply (probe_free _ _ _ _ (dom seen ∖ {[Slugger.serialize value]})).
  - intros k _ Hs. apply elem_of_difference. split; [by apply elem_of_dom|].
    intros Heq%elem_of_singleton. by apply candidate_not_original in Heq.
  - assert (Slugger.serialize value ∈ dom seen) by (by apply elem_of_dom).
    rewrite size_difference by set_solver. rewrite size_singleton, size_dom.
    assert (size (dom seen) <> 0) by (apply size_non_empty_iff; set_solver).
    rewrite size_dom in *. lia.
Qed.

Lemma assign_keeps (seen : gmap string nat) (key k : string) (v : nat) :
  is_Some (seen !! k) -> is_Some (Slugger.assign seen key v !! k).
Proof.
  intros H. unfold Slugger.assign. case_bool_decide; [done|].
  rewrite lookup_insert_is_Some'. by right.
Qed.

Lemma assign_held (seen : gmap string nat) (key k : string) (v : nat) :
  is_Some (Slugger.assign seen key v !! k) -> key = k \/ is_Some (seen !! k).
Proof.
  unfold Slugger.assign. case_bool_decide; [by right|].
  by rewrite lookup_insert_is_Some'.
Qed.

Lemma assign_recorded (seen : gmap string nat) (key : string) (v : nat) :
  key <> "__proto__" -> is_Some (Slugger.assign seen key v !! key).
Proof.
  intros H. unfold Slugger.assign. rewrite bool_decide_eq_false_2 by done.
  rewrite lookup_insert_eq. by eexists.
Qed.

(** A candidate has a hyphen, which [__proto__] has not. *)
Lemma candidate_not_proto (originalSlug : string) (occurrence : nat) :
  Slugger.candidate originalSlug occurrence <> "__proto__".
Proof.
  intros H.
  apply (f_equal (Str.all (fun c => negb (bool_decide (c = "-"%char))))) in H.
  unfold Slugger.candidate in H. rewrite !all_app in H.
  change (Str.all (fun c => negb (bool_decide (c = "-"%char))) "-")
    with false in H.
  rewrite andb_false_l, andb_false_r in H. discriminate.
Qed.

(** The slugger answers [__proto__] to that very label only. *)
Lemma slug_proto (seen : gmap string nat) (value : string) :
  (Slugger.slug seen value).1 = "__proto__" ->
  Slugger.serialize value = "__proto__".
Proof.
  unfold Slugger.slug, Slugger.getNextSafeSlug.
  destruct (seen !! Slugger.serialize value); simpl; [|done].
  intros H. by apply candidate_not_proto in H.
Qed.

(** Every slug but [__proto__] is held by the slugger afterwards. *)
Lemma slug_recorded (seen : gmap string nat) (value : string) :
  (Slugger.slug seen value).1 <> "__proto__" ->
  is_Some ((Slugger.slug seen value).2 !! (Slugger.slug seen value).1).
Proof.
  unfold Slugger.slug, Slugger.getNextSafeSlug.
  destruct (seen !! Slugger.serialize value); simpl;
    intros H; by apply assign_recorded.
Qed.

Lemma slug_keeps (seen : gmap string nat) (value key : string) :
  is_Some (seen !! key) -> is_Some ((Slugger.slug seen value).2 !! key).
Proof.
  intros H. unfold Slugger.slug, Slugger.getNextSafeSlug.
  destruct (seen !! Slugger.serialize value); simpl;
    by do 2 apply assign_keeps.
Qed.

Lemma slug_result_lowered (seen : gmap string nat) (value : string) :
  lowered (Slugger.slug seen value).1 = true.
Proof.
  unfold Slugger.slug, Slugger.getNextSafeSlug.
  destruct (seen !! Slugger.serialize value); simpl.
  - apply candidate_lowered, serialize_lowered.
  - apply serialize_lowered.
Qed.

Lemma slug_lowered (seen : gmap string nat) (value : string) :
  (forall k, is_Some (seen !! k) -> lowered k = true) ->
  forall k, is_Some ((Slugger.slug seen value).2 !! k) -> lowered k = true.
Proof.
  intros Hseen k. unfold Slugger.slug, Slugger.getNextSafeSlug.
  destruct (seen !! Slugger.serialize value); simpl; intros H;
    apply assign_held in H as [<-|H];
    try apply assign_held in H as [<-|H];
    try (by apply Hseen);
    try apply serialize_lowered.
  apply candidate_lowered, serialize_lowered.
Qed.

(** ** The state of the router *)

Section State.
Variable R : RouterClass.
Variable t : Tree.

Lemma sluggerOf_insert (st : RouterState) sluggers slugs page page' seen :
  sluggerOf {| _sluggers := <[page := seen]> sluggers; _slugs := slugs |}
    page' =
  if decide (page = page') then seen
  else sluggerOf {| _sluggers := sluggers; _slugs := slugs |} page'.
Proof.
  unfold sluggerOf. simpl. rewrite lookup_insert. by case_decide.
Qed.

Lemma slugsOf_insert sluggers slugs page page' remembered :
  slugsOf {| _sluggers := sluggers;
             _slugs := <[page := remembered]> slugs |} page' =
  if decide (page = page') then remembered
  else slugsOf {| _sluggers := sluggers; _slugs := slugs |} page'.
Proof.
  unfold slugsOf. simpl. rewrite lookup_insert. by case_decide.
Qed.

(** What a call of [createSlug] that returns has done. *)
Lemma createSlug_Ok (fuel : nat) (st : RouterState) (n : Reflection)
    (header : option string) (slug : string) (st' : RouterState) :
  createSlug R t fuel st n header = Ok (slug, st') ->
  exists page,
    _getReflectionWithDocument R t fuel n = Ok page /\
    ((page = n /\ truthy header = false /\ slug = "" /\ st' = st) \/
     (truthy header = true /\
      slug = (Slugger.slug (sluggerOf st page) (default "" header)).1 /\
      (forall page', sluggerOf st' page' =
         if decide (page = page')
         then (Slugger.slug (sluggerOf st page) (default "" header)).2
         else sluggerOf st page') /\
      (forall page', slugsOf st' page' = slugsOf st page')) \/
     (truthy header = false /\ page <> n /\
      exists parts,
        createSlug_loop t fuel n page [] = Ok parts /\
        memo st' page n = Some slug /\
        ((memo st page n = Some slug /\
          (forall page', sluggerOf st' page' = sluggerOf st page') /\
          (forall page', slugsOf st' page' = slugsOf st page')) \/
         (memo st page n = None /\
          slug = (Slugger.slug (sluggerOf st page) (Str.join "-" parts)).1 /\
          (forall page', sluggerOf st' page' =
             if decide (page = page')
             then (Slugger.slug (sluggerOf st page) (Str.join "-" parts)).2
             else sluggerOf st page') /\
          (forall page', slugsOf st' page' =
             if decide (page = page')
             then <[n := slug]> (slugsOf st page)
             else slugsOf st page'))))).
Proof.
  unfold createSlug. intros H.
  destruct (_getReflectionWithDocument R t fuel n) as [page| |]; [|done..].
  exists page. split; [done|]. simpl in H.
  assert (Hheader : forall value,
    (forall page', sluggerOf
       {| _sluggers := <[page := (Slugger.slug (sluggerOf st page) value).2]>
                         (<[page := sluggerOf st page]> (_sluggers st));
          _slugs := _slugs st |} page' =
       if decide (page = page')
       then (Slugger.slug (sluggerOf st page) value).2
       else sluggerOf st page')).
  { intros value page'. unfold sluggerOf at 1. simpl.
    destruct (decide (page = page')) as [->|Hne].
    - by rewrite lookup_insert_eq.
    - by rewrite !lookup_insert_ne. }
  fold (sluggerOf st page) in H.
  destruct (truthy header) eqn:Eh.
  { right; left. rewrite andb_false_r in H. inversion H; subst; clear H.
    split; [done|]. split; [done|]. split; [apply Hheader|done]. }
  rewrite andb_true_r in H. case_bool_decide as En.
  { left. by inversion H. }
  right; right. split; [done|]. split; [done|].
  destruct (createSlug_loop t fuel n page []) as [parts| |]; [|done..].
  exists parts. split; [done|]. simpl in H.
  fold (slugsOf st page) in H.
  destruct (slugsOf st page !! n) as [s|] eqn:Em;
    inversion H; subst; clear H.
  - split; [unfold memo, slugsOf; simpl; rewrite lookup_insert_eq; simpl;
            by rewrite lookup_insert_eq|].
    left. split; [done|]. split; intros page'.
    + unfold sluggerOf at 1. simpl.
      destruct (decide (page = page')) as [->|Hne].
      * by rewrite lookup_insert_eq.
      * by rewrite lookup_insert_ne.
    + unfold slugsOf at 1. simpl.
      destruct (decide (page = page')) as [->|Hne].
      * rewrite lookup_insert_eq. simpl. by rewrite insert_id.
      * by rewrite lookup_insert_ne.
  - split; [unfold memo, slugsOf; simpl; rewrite lookup_insert_eq; simpl;
            by rewrite lookup_insert_eq|].
    right. split; [done|]. split; [done|]. split; [apply Hheader|].
    intros page'. unfold slugsOf at 1. simpl.
    destruct (decide (page = page')) as [->|Hne].
    + by rewrite lookup_insert_eq.
    + by rewrite lookup_insert_ne.
Qed.

Lemma createSlug_pageStep (fuel : nat) (st : RouterState) (n : Reflection)
    (header : option string) (slug : string) (st' : RouterState) :
  createSlug R t fuel st n header = Ok (slug, st') ->
  forall page,
    pageStep (sluggerOf st page) (slugsOf st page)
             (sluggerOf st' page) (slugsOf st' page).
Proof.
  intros (owner & _ & H)%createSlug_Ok page.
  destruct H as [(_ & _ & _ & ->)|[(_ & _ & Hs & Hm)|(_ & _ & parts & _ & _ & H)]].
  - constructor.
  - rewrite Hs, Hm. destruct (decide (owner = page)); [subst|]; constructor.
  - destruct H as [(_ & Hs & Hm)|(Hnone & -> & Hs & Hm)]; rewrite Hs, Hm.
    + constructor.
    + destruct (decide (owner = page)); [subst|]; by constructor.
Qed.

Lemma createLink_createSlug cwd (fuel : nat) (st : RouterState)
    (from to : Reflection) (link : string) (st' : RouterState) :
  createLink R t cwd fuel st from to = Ok (link, st') ->
  exists slug, createSlug R t fuel st to None = Ok (slug, st').
Proof.
  unfold createLink. intros H.
  apply bind_Ok in H as (a & _ & H). apply bind_Ok in H as (b & _ & H).
  apply bind_Ok in H as ([slug st''] & Hs & H).
  inversion H; subst. by exists slug.
Qed.

Lemma call_pageStep (st st' : RouterState) :
  call R t st st' ->
  forall page,
    pageStep (sluggerOf st page) (slugsOf st page)
             (sluggerOf st' page) (slugsOf st' page).
Proof.
  intros [fuel ? n header slug ? H|cwd fuel ? from to link ? H].
  - by eapply createSlug_pageStep.
  - apply createLink_createSlug in H as [slug H].
    by eapply createSlug_pageStep.
Qed.

Lemma pageStep_invariant seen slugs seen' slugs' :
  pageStep seen slugs seen' slugs' ->
  pageInvariant seen slugs -> pageInvariant seen' slugs'.
Proof.
  intros Hstep [Hres Hlow Hseen Hslugs Hapart].
  destruct Hstep as [|value|value target Hnone].
  - by constructor.
  - constructor; [| | |done..]; eauto using slug_keeps, slug_lowered.
  - pose proof (slug_fresh seen value) as Hfresh.
    constructor; [eauto using slug_keeps|eauto using slug_lowered| | |].
    + intros n s. rewrite lookup_insert. case_decide.
      * intros [= <-] Hproto. by apply slug_recorded.
      * intros Hn Hproto. eauto using slug_keeps.
    + intros n s. rewrite lookup_insert. case_decide.
      * intros [= <-]. split; [apply slug_result_lowered|].
        intros Hr. apply Hres in Hr as [? Hr]. congruence.
      * apply Hslugs.
    + intros n1 n2 s. rewrite !lookup_insert.
      repeat case_decide; subst; try done.
      * intros [= <-] Hn Hproto.
        destruct (Hseen _ _ Hn Hproto) as [? Hs]. congruence.
      * intros Hn [= <-] Hproto.
        destruct (Hseen _ _ Hn Hproto) as [? Hs]. congruence.
      * apply Hapart.
Qed.

Lemma pageStep_memo seen slugs seen' slugs' n s :
  pageStep seen slugs seen' slugs' ->
  slugs !! n = Some s -> slugs' !! n = Some s.
Proof.
  intros [|value|value target Hnone] Hn; [done..|].
  rewrite lookup_insert_ne; [done|congruence].
Qed.

Lemma seeded_invariant : pageInvariant seeded ∅.
Proof.
  constructor.
  - intros r Hr. unfold reserved in Hr.
    rewrite !elem_of_cons, elem_of_nil in Hr.
    destruct Hr as [-> | [-> | [-> | []]]]; vm_compute; by eexists.
  - unfold seeded. repeat apply slug_lowered.
    intros k [? Hk]. unfold Slugger.new in Hk. by rewrite lookup_empty in Hk.
  - intros n s Hn. by rewrite lookup_empty in Hn.
  - intros n s Hn. by rewrite lookup_empty in Hn.
  - intros n1 n2 s Hn. by rewrite lookup_empty in Hn.
Qed.

Lemma initial_invariant : invariant initial.
Proof. intros page. apply seeded_invariant. Qed.

Lemma calls_invariant (st st' : RouterState) :
  calls R t st st' -> invariant st -> invariant st'.
Proof.
  induction 1 as [|st st1 st2 Hcall _ IH]; [done|].
  intros Hinv. apply IH. intros page.
  eapply pageStep_invariant; [by apply call_pageStep|apply Hinv].
Qed.

Lemma calls_memo (st st' : RouterState) (page n : Reflection) (s : string) :
  calls R t st st' -> memo st page n = Some s -> memo st' page n = Some s.
Proof.
  induction 1 as [|st st1 st2 Hcall _ IH]; [done|].
  intros Hm. apply IH. unfold memo in *.
  eapply pageStep_memo; [by apply call_pageStep|done].
Qed.

End State.

(** ** Idempotent queries *)

Lemma getDocumentName_more_fuel (R : RouterClass) (t : Tree)
    (fuel fuel' : nat) (n : Reflection) (path : string) :
  getDocumentName R t fuel n = Ok path -> fuel <= fuel' ->
  getDocumentName R t fuel' n = Ok path.
Proof.
  unfold getDocumentName, _getReflectionWithDocument. intros H Hle.
  apply bind_Ok in H as (page & Hpage & H).
  apply bind_Ok in H as (walked & Hwalk & H).
  rewrite (owner_more_fuel R t fuel n page fuel' Hpage Hle). simpl.
  by rewrite (walk_more_fuel t fuel page [] walked fuel' Hwalk Hle).
Qed.

(** C3: [getDocumentName] reads the tree only, so that any two of its runs
    that terminate, whatever their numbers of rounds, give the same name;
    and once a call of [createSlug] without header has returned a slug for a
    reflection, every later such call for it returns that slug, whatever
    calls, with or without header and for whatever reflections, came in
    between. *)
Theorem queries_are_idempotent (R : RouterClass) (t : Tree) :
  (forall fuel1 fuel2 n path1 path2,
     getDocumentName R t fuel1 n = Ok path1 ->
     getDocumentName R t fuel2 n = Ok path2 ->
     path1 = path2) /\
  (forall fuel st n slug st1 st2,
     createSlug R t fuel st n None = Ok (slug, st1) ->
     calls R t st1 st2 ->
     exists st3, createSlug R t fuel st2 n None = Ok (slug, st3)).
Proof.
  split.
  - intros fuel1 fuel2 n path1 path2 H1 H2.
    apply (getDocumentName_more_fuel _ _ _ (fuel1 `max` fuel2)) in H1; [|lia].
    apply (getDocumentName_more_fuel _ _ _ (fuel1 `max` fuel2)) in H2; [|lia].
    congruence.
  - intros fuel st n slug st1 st2 H Hcalls.
    apply createSlug_Ok in H as (page & Hpage & H).
    destruct H as [(-> & _ & -> & ->)|[(? & _)|(_ & Hne & parts & Hparts & Hm & _)]];
      [|done|].
    + exists st2. unfold createSlug. rewrite Hpage. simpl.
      by rewrite bool_decide_eq_true_2.
    + apply (calls_memo R t st1 st2 page n slug Hcalls) in Hm.
      unfold createSlug. rewrite Hpage. simpl.
      rewrite bool_decide_eq_false_2 by done. simpl. rewrite Hparts. simpl.
      unfold memo, slugsOf in Hm. rewrite Hm. by eexists.
Qed.

Lemma queries_are_idempotent_witness :
  let st1 := stateAfter (createSlug ThemeRouter scenario 4 initial 3 None) in
  let st2 := stateAfter
               (createSlug ThemeRouter scenario 4 st1 3 (Some "bar")) in
  exists st3, createSlug ThemeRouter scenario 4 st2 3 None = Ok ("bar", st3).
Proof.
  intros st1 st2.
  apply (proj2 (queries_are_idempotent ThemeRouter scenario) 4 initial 3
           "bar" st1 st2).
  - vm_compute. reflexivity.
  - apply rtc_once.
    apply (call_createSlug _ _ 4 st1 3 (Some "bar") "bar-1" st2).
    vm_compute. reflexivity.
Defined.

(** ** Header slugs *)

(** C4, as stated, fails for the empty header, which [createSlug] takes for
    no header: both calls for the method [bar] of the scenario answer
    [bar]. *)
Lemma empty_header_slug_is_remembered :
  exists st1 st2,
    createSlug ThemeRouter scenario 4 initial 3 (Some "") = Ok ("bar", st1) /\
    createSlug ThemeRouter scenario 4 st1 3 (Some "") = Ok ("bar", st2).
Proof.
  set (st1 := stateAfter
                (createSlug ThemeRouter scenario 4 initial 3 (Some ""))).
  exists st1, (stateAfter (createSlug ThemeRouter scenario 4 st1 3 (Some ""))).
  split; vm_compute; reflexivity.
Qed.

(** The header [__proto__] is outside of what is proved below: the slugger
    cannot hold that identifier and answers it again and again. *)
Lemma proto_header_slug_repeats :
  exists st1 st2,
    createSlug ThemeRouter scenario 4 initial 3 (Some "__proto__") =
      Ok ("__proto__", st1) /\
    createSlug ThemeRouter scenario 4 st1 3 (Some "__proto__") =
      Ok ("__proto__", st2).
Proof.
  set (st1 := stateAfter
                (createSlug ThemeRouter scenario 4 initial 3
                   (Some "__proto__"))).
  exists st1,
    (stateAfter (createSlug ThemeRouter scenario 4 st1 3 (Some "__proto__"))).
  split; vm_compute; reflexivity.
Qed.

(** C4, amended: for every reflection whose page is found and every
    non-empty header, two successive calls of [createSlug] with that header
    return, and return two different slugs unless the slug is
    [__proto__]. *)
Theorem header_slugs_are_fresh (R : RouterClass) (t : Tree) (fuel : nat)
    (st : RouterState) (n : Reflection) (header : string) :
  header <> "" ->
  returns (_getReflectionWithDocument R t fuel n) ->
  exists slug1 st1 slug2 st2,
    createSlug R t fuel st n (Some header) = Ok (slug1, st1) /\
    createSlug R t fuel st1 n (Some header) = Ok (slug2, st2) /\
    (slug1 <> "__proto__" -> slug1 <> slug2).
Proof.
  intros Hne [page Hpage].
  destruct (createSlug_returns R t fuel st n page (Some header) Hpage)
    as [[slug1 st1] H1].
  destruct (createSlug_returns R t fuel st1 n page (Some header) Hpage)
    as [[slug2 st2] H2].
  exists slug1, st1, slug2, st2. split; [done|]. split; [done|].
  assert (Ht : truthy (Some header) = true)
    by (simpl; by rewrite bool_decide_eq_false_2).
  apply createSlug_Ok in H1 as (page1 & Hp1 & H1).
  apply createSlug_Ok in H2 as (page2 & Hp2 & H2).
  assert (page1 = page) as -> by congruence.
  assert (page2 = page) as -> by congruence.
  destruct H1 as [(_ & ? & _)|[(_ & -> & Hs1 & _)|(? & _)]];
    [congruence| |congruence].
  destruct H2 as [(_ & ? & _)|[(_ & -> & _)|(? & _)]];
    [congruence| |congruence].
  specialize (Hs1 page). rewrite decide_True in Hs1 by done.
  rewrite Hs1. simpl. intros Hproto Heq.
  pose proof (slug_fresh (Slugger.slug (sluggerOf st page) header).2 header)
    as Hfresh.
  rewrite <- Heq in Hfresh.
  destruct (slug_recorded (sluggerOf st page) header Hproto) as [? Hrec].
  congruence.
Qed.

Lemma header_slugs_are_fresh_witness :
  exists slug1 slug2 st1 st2,
    createSlug ThemeRouter scenario 4 initial 3 (Some "Example") =
      Ok (slug1, st1) /\
    createSlug ThemeRouter scenario 4 st1 3 (Some "Example") =
      Ok (slug2, st2) /\
    slug1 = "example" /\ slug1 <> slug2.
Proof.
  destruct (header_slugs_are_fresh ThemeRouter scenario 4 initial 3 "Example")
    as (slug1 & st1 & slug2 & st2 & H1 & H2 & Hfresh).
  - discriminate.
  - exists 2. reflexivity.
  - exists slug1, slug2, st1, st2.
    assert (Hslug : slug1 = "example").
    { assert (H : createSlug ThemeRouter scenario 4 initial 3 (Some "Example")
                = Ok ("example",
                      stateAfter (createSlug ThemeRouter scenario 4 initial 3
                                    (Some "Example"))))
        by (vm_compute; reflexivity).
      rewrite H in H1. by inversion H1. }
    repeat split; try done. apply Hfresh. rewrite Hslug. discriminate.
Defined.

(** ** Unique slugs *)




(** ** Signatures *)

Lemma signatures_label (t : Tree) (page : Reflection) (fuel : nat) :
  forall n parts parts',
    signaturesUpTo t page n ->
    createSlug_loop t fuel n page parts = Ok parts' -> parts' = parts.
Proof.
  induction fuel as [|fuel IH]; intros n parts parts' Hs H; [done|].
  simpl in H. case_bool_decide as Heq; [congruence|].
  destruct Hs as [|n p _ Hk Hp Hs]; [done|].
  rewrite Hk, Hp in H. simpl in H. by eapply IH.
Qed.

(** C10, as stated, fails on a page whose slugger has issued the empty
    identifier before: after the slug of the property [$] of the interface
    [JQ], whose label is normalized to the empty string, the first query
    for the call signature of [JQ] returns [-1], and the link to the
    signature has the anchor [#-1]. *)
Lemma empty_identifier_may_be_taken :
  _getReflectionWithDocument ThemeRouter dollar 4 3 = Ok 1 /\
  signaturesUpTo dollar 1 3 /\
  exists st1 st2 st3,
    createSlug ThemeRouter dollar 4 initial 2 None = Ok ("", st1) /\
    createSlug ThemeRouter dollar 4 st1 3 None = Ok ("-1", st2) /\
    createLink ThemeRouter dollar [] 4 st1 0 3 =
      Ok ("interface.JQ.html#-1", st3).
Proof.
  split; [reflexivity|]. split.
  { apply (signatures_more _ _ 3 1); [lia|reflexivity|reflexivity|].
    constructor. }
  set (st1 := stateAfter (createSlug ThemeRouter dollar 4 initial 2 None)).
  exists st1, (stateAfter (createSlug ThemeRouter dollar 4 st1 3 None)),
    (stateAfter (createLink ThemeRouter dollar [] 4 st1 0 3)).
  repeat split; vm_compute; reflexivity.
Qed.

(** C10, amended: for a reflection that is not the owner of its page and is
    separated from it by signatures only, the label that [createSlug]
    builds is empty and the slug, on the first call, is what the slugger of
    the page makes of the empty label; as long as that slugger has not
    issued the empty identifier, as on a page for which no slug was issued
    yet, the slug is empty and a link to the reflection has no anchor: it
    is the link to the page. *)
Theorem signature_slug_is_empty (R : RouterClass) (t : Tree)
    (cwd : list string) (fuel : nat) (st : RouterState)
    (n page : Reflection) :
  _getReflectionWithDocument R t fuel n = Ok page ->
  n <> page ->
  signaturesUpTo t page n ->
  memo st page n = None ->
  createSlug_loop t fuel n page [] = Ok [] /\
  (exists st',
     createSlug R t fuel st n None =
     Ok ((Slugger.slug (sluggerOf st page) "").1, st')) /\
  (sluggerOf st page !! "" = None ->
   (exists st', createSlug R t fuel st n None = Ok ("", st')) /\
   forall from fromPage toPage,
     getDocumentName R t fuel from = Ok fromPage ->
     getDocumentName R t fuel page = Ok toPage ->
     (exists st',
        createLink R t cwd fuel st from n =
        Ok (posix.relative cwd (posix.dirname fromPage) toPage, st')) /\
     createLink R t cwd fuel st from page =
       Ok (posix.relative cwd (posix.dirname fromPage) toPage, st)).
Proof.
  intros Hpage Hne Hsig Hmemo.
  destruct (label_found R t fuel n page [] Hpage) as [parts Hparts].
  pose proof (signatures_label t page fuel n [] parts Hsig Hparts) as ->.
  assert (Hslug : exists st',
            createSlug R t fuel st n None =
            Ok ((Slugger.slug (sluggerOf st page) "").1, st')).
  { unfold createSlug. rewrite Hpage. simpl.
    rewrite bool_decide_eq_false_2 by done. simpl. rewrite Hparts. simpl.
    unfold memo, slugsOf in Hmemo. rewrite Hmemo. by eexists. }
  split; [done|]. split; [done|]. intros Hfree.
  assert (Hempty : (Slugger.slug (sluggerOf st page) "").1 = "").
  { unfold Slugger.slug, Slugger.getNextSafeSlug.
    change (Slugger.serialize "") with "". by rewrite Hfree. }
  rewrite Hempty in Hslug. split; [done|].
  intros from fromPage toPage Hfrom Hto.
  pose proof (owner_found R t fuel n page Hpage) as [_ Hown].
  split.
  - destruct Hslug as [st' Hslug]. exists st'. unfold createLink.
    rewrite Hfrom, <- (getDocumentName_owner R t fuel n page Hpage), Hto, Hslug.
    simpl. by rewrite app_nil_r_string.
  - unfold createLink. rewrite Hfrom, Hto. simpl.
    unfold createSlug, _getReflectionWithDocument.
    destruct fuel as [|k]; [done|]. rewrite owner_self by done. simpl.
    rewrite bool_decide_eq_true_2 by done. simpl.
    by rewrite app_nil_r_string.
Qed.

Lemma signature_slug_is_empty_witness :
  exists st',
    createLink ThemeRouter callable [] 4 initial 0 2 =
    Ok ("interface.Handler.html", st').
Proof.
  destruct (signature_slug_is_empty ThemeRouter callable [] 4 initial 2 1)
    as (_ & _ & H); [reflexivity|lia| |reflexivity|].
  - apply (signatures_more _ _ 2 1); [lia|reflexivity|reflexivity|].
    constructor.
  - destruct H as [_ H]; [reflexivity|].
    apply (H 0 "index.html" "interface.Handler.html"); reflexivity.
Defined.

(** ** Distinct document names *)

(** Strings without the character [sep] that are followed by [sep] are
    determined by the whole. *)
Lemma split_first (sep : ascii) (a b r r' : string) :
  Str.all (fun c => negb (bool_decide (c = sep))) a = true ->
  Str.all (fun c => negb (bool_decide (c = sep))) b = true ->
  a +:+ String sep r = b +:+ String sep r' -> a = b /\ r = r'.
Proof.
  revert b. induction a as [|c a IH]; intros [|c' b] Ha Hb H.
  - by inversion H.
  - inversion H; subst. simpl in Hb.
    by rewrite bool_decide_eq_true_2 in Hb.
  - inversion H; subst. simpl in Ha.
    by rewrite bool_decide_eq_true_2 in Ha.
  - change (String c (a +:+ String sep r) = String c' (b +:+ String sep r'))
      in H.
    inversion H; subst. simpl in Ha, Hb.
    apply andb_prop in Ha as [_ Ha]. apply andb_prop in Hb as [_ Hb].
    destruct (IH b Ha Hb) as [-> ->]; done.
Qed.

Lemma not_split (sep : ascii) (a b r : string) :
  Str.all (fun c => negb (bool_decide (c = sep))) a = true ->
  a <> b +:+ String sep r.
Proof.
  intros Ha ->. rewrite all_app in Ha. apply andb_prop in Ha as [_ Ha].
  simpl in Ha. by rewrite bool_decide_eq_true_2 in Ha.
Qed.

Lemma length_app_string (a b : string) :
  String.length (a +:+ b) = String.length a + String.length b.
Proof.
  induction a as [|c a IH]; [done|].
  change (String c a +:+ b) with (String c (a +:+ b)). simpl. by rewrite IH.
Qed.

Lemma app_inj_tail_string (a b c : string) : a +:+ c = b +:+ c -> a = b.
Proof.
  revert b. induction a as [|x a IH]; intros [|y b] H; [done| | |].
  - apply (f_equal String.length) in H.
    rewrite !length_app_string in H. simpl in H. lia.
  - apply (f_equal String.length) in H.
    rewrite !length_app_string in H. simpl in H. lia.
  - change (String x (a +:+ c) = String y (b +:+ c)) in H.
    inversion H; subst. f_equal. by apply IH.
Qed.

Lemma all_impl (p q : ascii -> bool) (s : string) :
  (forall c, p c = true -> q c = true) ->
  Str.all p s = true -> Str.all q s = true.
Proof.
  intros Hpq. induction s as [|c s IH]; simpl; [done|].
  intros [Hc Hs]%andb_prop. by rewrite Hpq, IH.
Qed.

Lemma safeSegment_no_slash (s : string) :
  safeSegment s = true ->
  Str.all (fun c => negb (bool_decide (c = "/"%char))) s = true.
Proof.
  unfold safeSegment. intros [H _]%andb_prop. revert H. apply all_impl.
  intros c Hc. case_bool_decide; [subst; done|done].
Qed.

(** [join] loses nothing of a non-empty list of segments without
    slashes. *)
Lemma join_inj (l1 l2 : list string) :
  l1 <> [] -> l2 <> [] ->
  Forall (fun s => safeSegment s = true) l1 ->
  Forall (fun s => safeSegment s = true) l2 ->
  Str.join "/" l1 = Str.join "/" l2 -> l1 = l2.
Proof.
  revert l2. induction l1 as [|x l1 IH]; intros l2 Hn1 Hn2 H1 H2 H; [done|].
  destruct l2 as [|y l2]; [done|].
  apply Forall_cons in H1 as [Hx H1]. apply Forall_cons in H2 as [Hy H2].
  apply safeSegment_no_slash in Hx, Hy.
  destruct l1 as [|x' l1], l2 as [|y' l2].
  - simpl in H. by subst.
  - exfalso. revert H. by apply not_split.
  - exfalso. symmetry in H. revert H. by apply not_split.
  - change (x +:+ String "/" (Str.join "/" (x' :: l1)) =
            y +:+ String "/" (Str.join "/" (y' :: l2))) in H.
    apply split_first in H as [-> H]; [|done..].
    f_equal. by apply IH.
Qed.

Lemma toKindString_no_dot (k : ReflectionKind) :
  Str.all (fun c => negb (bool_decide (c = "."%char))) (toKindString k) = true.
Proof. by destruct k. Qed.

Lemma toKindString_inj (k1 k2 : ReflectionKind) :
  toKindString k1 = toKindString k2 -> k1 = k2.
Proof. destruct k1, k2; (done || discriminate). Qed.

Section Names.
Variable R : RouterClass.
Variable t : Tree.

Lemma fileName_inj (x y : Reflection) :
  fileName t x = fileName t y ->
  kind (t x) = kind (t y) /\ safeName t x = safeName t y.
Proof.
  unfold fileName. intros H.
  change (toKindString (kind (t x)) +:+ String "." (safeName t x +:+ ".html")
          = toKindString (kind (t y)) +:+
            String "." (safeName t y +:+ ".html")) in H.
  apply split_first in H as [Hk Hs]; [|apply toKindString_no_dot..].
  split; [by apply toKindString_inj|by eapply app_inj_tail_string].
Qed.

Lemma fileName_not_index (x : Reflection) : fileName t x <> "index.html".
Proof.
  unfold fileName. intros H.
  change (toKindString (kind (t x)) +:+ String "." (safeName t x +:+ ".html")
          = "index" +:+ String "." "html") in H.
  apply split_first in H as [Hk _]; [|apply toKindString_no_dot|done].
  by destruct (kind (t x)).
Qed.

Lemma walk_lineage (n r : Reflection) (l : list Reflection) :
  lineage t n l r ->
  forall fuel parts, length l < fuel ->
    getDocumentName_loop t fuel n parts =
    Ok (r, (rev (safeName t <$> l) ++ parts)%list).
Proof.
  induction 1 as [r Hp|n p l r Hp Hl IH]; intros fuel parts Hlt;
    (destruct fuel as [|fuel]; [simpl in Hlt; lia|]); simpl; rewrite Hp.
  - done.
  - rewrite IH by (simpl in Hlt; lia).
    by rewrite <- app_assoc.
Qed.

(** The name of the document of an owner, by the list of its ancestors. *)
Lemma getDocumentName_lineage (fuel : nat) (a r : Reflection)
    (l : list Reflection) :
  lineage t a l r -> isProject t r = true -> length l < fuel ->
  hasOwnDocument R t a = true ->
  getDocumentName R t fuel a =
  Ok (Str.join "/"
        (if isDirectory R t a
         then rev (safeName t <$> l) ++ ["index.html"]
         else rev (safeName t <$> tail l) ++ [fileName t a])%list).
Proof.
  intros Hl Hr Hlt Ha. unfold getDocumentName, _getReflectionWithDocument.
  destruct fuel as [|k]; [lia|]. rewrite owner_self by done.
  cbn [bind]. rewrite (walk_lineage a r l Hl) by done.
  cbn [bind fst snd]. rewrite Hr. cbn [negb]. fold (isDirectory R t a).
  rewrite app_nil_r. destruct (isDirectory R t a) eqn:Hd; [done|].
  do 3 f_equal. destruct Hl as [r Hp|a p l r Hp Hl].
  - unfold isDirectory in Hd. rewrite Hr in Hd.
    by rewrite orb_true_r in Hd.
  - cbn [fmap list_fmap rev tail]. by rewrite removelast_last.
Qed.

Lemma lineage_top_inv (n r : Reflection) : lineage t n [] r -> n = r.
Proof. by inversion 1. Qed.

(** Two different reflections below one root whose ancestors have the same
    safe names, level by level: somewhere two different children of one
    parent have the same safe name; they are the two reflections, or each
    is the parent of an ancestor of one of them. *)
Lemma same_names_clash (a r : Reflection) (la : list Reflection) :
  lineage t a la r ->
  forall b lb,
    lineage t b lb r -> a <> b ->
    safeName t <$> la = safeName t <$> lb ->
    exists x y p,
      x <> y /\ parent (t x) = Some p /\ parent (t y) = Some p /\
      safeName t x = safeName t y /\
      ((x = a /\ y = b) \/
       exists ca cb,
         ancestor t a ca /\ parent (t ca) = Some x /\
         ancestor t b cb /\ parent (t cb) = Some y).
Proof.
  induction 1 as [r Hp|a pa la r Hp Hl IH]; intros b lb Hb Hne Hnames.
  - destruct lb; [|done]. apply lineage_top_inv in Hb. congruence.
  - destruct Hb as [r Hpb|b pb lb r Hpb Hlb]; [done|].
    injection Hnames as Hab Hrest.
    destruct (decide (pa = pb)) as [->|Hpne].
    + exists a, b, pb. repeat split; auto.
    + destruct (IH pb lb Hlb Hpne Hrest)
        as (x & y & p & Hxy & Hx & Hy & Hs & Hwhere).
      exists x, y, p. repeat split; try done. right.
      destruct Hwhere as [[-> ->]|(ca & cb & Hca & Hcax & Hcb & Hcby)].
      * exists a, b. repeat split; (constructor || done).
      * exists ca, cb. repeat split; (by econstructor) || done.
Qed.

Lemma linked_ownersLinked : linked t -> ownersLinked R t.
Proof. intros H c p Hp _. by apply H. Qed.

Hypothesis owners_linked : ownersLinked R t.
Hypothesis policy_consistent : downwardConsistent R t.

Lemma owner_ancestors (a c : Reflection) :
  ancestor t a c -> hasOwnDocument R t a = true ->
  hasOwnDocument R t c = true.
Proof. induction 1; eauto. Qed.

Lemma parent_of_owner_is_directory (c x : Reflection) :
  parent (t c) = Some x -> hasOwnDocument R t c = true ->
  isDirectory R t x = true.
Proof.
  intros Hp Hc.
  destruct (owners_linked c x Hp Hc) as (Hcont & cs & Hcs & Hin).
  unfold isDirectory, _anyChildrenHaveOwnDocument. rewrite Hcont, Hcs.
  apply orb_true_intro. left. apply existsb_exists.
  exists c. split; [by apply list_elem_of_In|done].
Qed.

End Names.


Lemma safe_names_safe (t : Tree) (l : list Reflection) :
  Forall (fun s => safeSegment s = true) (rev (safeName t <$> l)).
Proof.
  apply Forall_rev, Forall_fmap, Forall_forall. intros x _.
  apply _getSafeFilename_safe.
Qed.


Lemma overloaded_linked : ownersLinked ThemeRouter overloaded.
Proof.
  intros c p. unfold isContainer.
  destruct c as [|[|[|[|[|[|c]]]]]]; simpl; intros [= <-] Hc; try done;
    (split; [done|]); eexists; (split; [reflexivity|]);
    apply list_elem_of_In; simpl; auto.
Qed.

Lemma overloaded_consistent : downwardConsistent ThemeRouter overloaded.
Proof.
  intros c p. destruct c as [|[|[|[|[|[|c]]]]]]; simpl; intros [= <-]; done.
Qed.

Lemma overloaded_apart : ownersApart ThemeRouter overloaded.
Proof.
  intros x y p Hxy.
  destruct x as [|[|[|[|[|[|x]]]]]], y as [|[|[|[|[|[|y]]]]]]; simpl;
    try done; intros [= <-] [=] Hx Hy; try done; right; done.
Qed.


(** * Further properties of the router *)

(** ** The two partitions of the children *)

Lemma filter_partition {A} (f : A -> bool) (l : list A) :
  List.filter (fun x => negb (f x)) l ++ List.filter f l ≡ₚ l.
Proof.
  induction l as [|x l IH]; simpl; [done|].
  destruct (f x); simpl.
  - rewrite <- Permutation_middle. by constructor.
  - by constructor.
Qed.

(** X1: [getChildrenInPage] and [getChildrenNotInPage] split the children
    of a container: a child is in the first exactly when it has no document
    of its own, in the second exactly when it has one, and the two lists
    together are a rearrangement of the children.  Both are empty for a
    reflection that is no container or has no [children]. *)
Theorem children_are_partitioned (R : RouterClass) (t : Tree)
    (r : Reflection) :
  let cs := if isContainer t r then default [] (children (t r)) else [] in
  (forall c, c ∈ getChildrenInPage R t r <->
             c ∈ cs /\ hasOwnDocument R t c = false) /\
  (forall c, c ∈ getChildrenNotInPage R t r <->
             c ∈ cs /\ hasOwnDocument R t c = true) /\
  getChildrenInPage R t r ++ getChildrenNotInPage R t r ≡ₚ cs.
Proof.
  unfold getChildrenInPage, getChildrenNotInPage.
  assert (Hnone : forall P Q : Reflection -> Prop,
            (forall c : Reflection, c ∈ [] <-> c ∈ [] /\ P c) /\
            (forall c : Reflection, c ∈ [] <-> c ∈ [] /\ Q c) /\
            ([] : list Reflection) ++ [] ≡ₚ []).
  { intros P Q. split; [|split; [|done]]; intros c; split;
      try (intros Hc; by apply elem_of_nil in Hc);
      intros [Hc _]; by apply elem_of_nil in Hc. }
  destruct (isContainer t r); [|apply Hnone].
  destruct (children (t r)) as [cs|]; simpl; [|apply Hnone].
  split; [|split].
  - intros c. rewrite !list_elem_of_In, filter_In, negb_true_iff. tauto.
  - intros c. rewrite !list_elem_of_In, filter_In. tauto.
  - apply filter_partition.
Qed.

(** ** The page of a reflection *)

(** X2: [_getReflectionWithDocument] never climbs past a reflection with a
    document: its answer has a document, is its own answer, and is the
    reflection asked for exactly when that one has a document. *)
Theorem page_resolution_is_idempotent (R : RouterClass) (t : Tree)
    (fuel : nat) :
  (forall n page,
     _getReflectionWithDocument R t fuel n = Ok page ->
     hasOwnDocument R t page = true /\
     _getReflectionWithDocument R t fuel page = Ok page) /\
  (forall n, 0 < fuel ->
     (_getReflectionWithDocument R t fuel n = Ok n <->
      hasOwnDocument R t n = true)).
Proof.
  unfold _getReflectionWithDocument. split.
  - intros n page H. destruct (owner_found R t fuel n page H) as [_ Hown].
    split; [done|]. destruct fuel as [|k]; [done|]. by apply owner_self.
  - intros n Hfuel. split.
    + intros H. by destruct (owner_found R t fuel n n H).
    + intros H. destruct fuel as [|k]; [lia|]. by apply owner_self.
Qed.

Lemma page_resolution_is_idempotent_witness :
  _getReflectionWithDocument ThemeRouter scenario 4 2 = Ok 2.
Proof.
  apply (proj1 (page_resolution_is_idempotent ThemeRouter scenario 4) 3 2).
  reflexivity.
Defined.

Lemma assetLink_owner (R : RouterClass) (t : Tree) (cwd : list string)
    (fuel : nat) (n page : Reflection) (k : string -> string) :
  _getReflectionWithDocument R t fuel n = Ok page ->
  (docReflection <- _getReflectionWithDocument R t fuel n ;;
   documentName <- getDocumentName R t fuel docReflection ;;
   Ok (k documentName)) =
  (documentName <- getDocumentName R t fuel page ;; Ok (k documentName)).
Proof. intros H. by rewrite H. Qed.

(** X3: what is asked on behalf of a reflection depends on its page only:
    two reflections of one page have the same document name, the same asset
    links and the same media links. *)
Theorem one_page_one_document (R : RouterClass) (t : Tree)
    (cwd : list string) (fuel : nat) (n m page : Reflection) :
  _getReflectionWithDocument R t fuel n = Ok page ->
  _getReflectionWithDocument R t fuel m = Ok page ->
  getDocumentName R t fuel n = getDocumentName R t fuel m /\
  (forall asset,
     createAssetLink R t cwd fuel n asset =
     createAssetLink R t cwd fuel m asset) /\
  (forall media,
     createMediaLink R t cwd fuel n media =
     createMediaLink R t cwd fuel m media).
Proof.
  intros Hn Hm. split; [|split].
  - by rewrite <- (getDocumentName_owner R t fuel n page Hn),
               <- (getDocumentName_owner R t fuel m page Hm).
  - intros asset. unfold createAssetLink.
    by rewrite (assetLink_owner R t cwd fuel n page _ Hn),
               (assetLink_owner R t cwd fuel m page _ Hm).
  - intros media. unfold createMediaLink.
    by rewrite (assetLink_owner R t cwd fuel n page _ Hn),
               (assetLink_owner R t cwd fuel m page _ Hm).
Qed.

Lemma one_page_one_document_witness :
  getDocumentName ThemeRouter caseTwins 4 3 =
  getDocumentName ThemeRouter caseTwins 4 4.
Proof.
  apply (one_page_one_document ThemeRouter caseTwins [] 4 3 4 2);
    reflexivity.
Defined.

(** X4: the children that [getChildrenInPage] lists for an owner of a page
    are on that page and share its document name; the children that
    [getChildrenNotInPage] lists are their own pages.  The children are
    taken to point back to the reflection as their parent. *)
Theorem children_in_page_share_the_page (R : RouterClass) (t : Tree)
    (fuel : nat) (r : Reflection) :
  hasOwnDocument R t r = true ->
  2 <= fuel ->
  (forall c, c ∈ getChildrenInPage R t r -> parent (t c) = Some r ->
     _getReflectionWithDocument R t fuel c = Ok r /\
     getDocumentName R t fuel c = getDocumentName R t fuel r) /\
  (forall c, c ∈ getChildrenNotInPage R t r ->
     _getReflectionWithDocument R t fuel c = Ok c).
Proof.
  intros Hr Hfuel. destruct fuel as [|[|k]]; [lia..|].
  destruct (children_are_partitioned R t r) as (Hin & Hout & _). split.
  - intros c Hc Hp. apply Hin in Hc as [_ Hc].
    assert (Hpage : _getReflectionWithDocument R t (S (S k)) c = Ok r).
    { unfold _getReflectionWithDocument. simpl. by rewrite Hc, Hp, Hr. }
    split; [done|]. symmetry. by apply getDocumentName_owner.
  - intros c Hc. apply Hout in Hc as [_ Hc].
    unfold _getReflectionWithDocument. by apply owner_self.
Qed.

Lemma children_in_page_share_the_page_witness :
  _getReflectionWithDocument ThemeRouter scenario 4 3 = Ok 2 /\
  getDocumentName ThemeRouter scenario 4 3 =
  getDocumentName ThemeRouter scenario 4 2.
Proof.
  apply (proj1 (children_in_page_share_the_page ThemeRouter scenario 4 2
                  eq_refl ltac:(lia)) 3).
  - apply list_elem_of_In. simpl. by left.
  - reflexivity.
Defined.

(** ** The sanitizer *)

Lemma map_keep (p : ascii -> bool) (x : ascii) (s : string) :
  Str.all p s = true -> Str.map (fun c => if p c then c else x) s = s.
Proof.
  induction s as [|c s IH]; simpl; [done|].
  intros [Hc Hs]%andb_prop. by rewrite Hc, IH.
Qed.

(** X5: [_getSafeFilename] leaves a name alone that is made of characters of
    [A-Za-z0-9._-] and does not start with a hyphen; sanitizing twice is
    therefore sanitizing once. *)
Theorem sanitizer_is_idempotent :
  (forall name, safeSegment name = true -> _getSafeFilename name = name) /\
  (forall name,
     _getSafeFilename (_getSafeFilename name) = _getSafeFilename name).
Proof.
  assert (H : forall name,
            safeSegment name = true -> _getSafeFilename name = name).
  { intros [|c rest]; [done|]. unfold safeSegment. simpl.
    intros [[Hc Hrest]%andb_prop Hstart%negb_true_iff]%andb_prop.
    rewrite Hc, Hstart. simpl. by rewrite map_keep. }
  split; [exact H|]. intros name. apply H, _getSafeFilename_safe.
Qed.

Lemma sanitizer_is_idempotent_witness :
  _getSafeFilename "Class.Foo_.html" = "Class.Foo_.html".
Proof. apply (proj1 sanitizer_is_idempotent). reflexivity. Defined.

(** ** Links to pages *)

(** X6: a reflection with a document of its own has the empty slug, whatever
    the router has seen, and asking for it changes nothing; a link to it is
    the relative path between the two documents, without anchor, and leaves
    the router as it was. *)
Theorem links_to_pages_have_no_anchor (R : RouterClass) (t : Tree)
    (cwd : list string) (fuel : nat) (st : RouterState)
    (from to : Reflection) (fromPage toPage : string) :
  hasOwnDocument R t to = true ->
  getDocumentName R t fuel from = Ok fromPage ->
  getDocumentName R t fuel to = Ok toPage ->
  createSlug R t fuel st to None = Ok ("", st) /\
  createLink R t cwd fuel st from to =
    Ok (posix.relative cwd (posix.dirname fromPage) toPage, st).
Proof.
  intros Hto Hfrom Htarget.
  assert (Hslug : createSlug R t fuel st to None = Ok ("", st)).
  { unfold createSlug, _getReflectionWithDocument.
    destruct fuel as [|k]; [done|]. rewrite owner_self by done. simpl.
    by rewrite bool_decide_eq_true_2. }
  split; [done|]. unfold createLink. rewrite Hfrom, Htarget, Hslug. simpl.
  by rewrite app_nil_r_string.
Qed.

Lemma links_to_pages_have_no_anchor_witness :
  createLink ThemeRouter scenario [] 4 initial 3 1 =
  Ok ("index.html", initial).
Proof.
  apply (links_to_pages_have_no_anchor ThemeRouter scenario [] 4 initial 3 1
           "core/class.Foo.html" "core/index.html"); reflexivity.
Defined.

(** ** The shape of document names *)

Lemma split_plain (sep : ascii) (a : string) :
  Str.all (fun c => negb (bool_decide (c = sep))) a = true ->
  Str.split sep a = [a].
Proof.
  induction a as [|c a IH]; simpl; [done|].
  intros [Hc Ha]%andb_prop. apply negb_true_iff in Hc.
  by rewrite Hc, IH.
Qed.

Lemma split_app (sep : ascii) (a r : string) :
  Str.all (fun c => negb (bool_decide (c = sep))) a = true ->
  Str.split sep (a +:+ String sep r) = a :: Str.split sep r.
Proof.
  induction a as [|c a IH].
  - intros _. change ("" +:+ String sep r) with (String sep r). simpl.
    by rewrite bool_decide_eq_true_2.
  - intros [Hc Ha]%andb_prop. apply negb_true_iff in Hc.
    change (String c a +:+ String sep r) with (String c (a +:+ String sep r)).
    simpl. by rewrite Hc, IH.
Qed.

(** Splitting at the slashes gives back the segments that were joined. *)
Lemma split_join (l : list string) :
  l <> [] -> Forall (fun s => safeSegment s = true) l ->
  Str.split posix.slash (Str.join "/" l) = l.
Proof.
  induction l as [|x l IH]; [done|]. intros _ Hl.
  apply Forall_cons in Hl as [Hx Hl]. apply safeSegment_no_slash in Hx.
  destruct l as [|y l]; [by apply split_plain|].
  change (Str.join "/" (x :: y :: l))
    with (x +:+ String "/" (Str.join "/" (y :: l))).
  unfold posix.slash. rewrite split_app by done. f_equal. by apply IH.
Qed.

Lemma app_assoc_string (a b c : string) : (a +:+ b) +:+ c = a +:+ (b +:+ c).
Proof.
  induction a as [|x a IH]; [done|].
  change (String x ((a +:+ b) +:+ c) = String x (a +:+ (b +:+ c))).
  by rewrite IH.
Qed.

Lemma join_snoc (l : list string) (x : string) :
  exists prefix, Str.join "/" (l ++ [x]) = prefix +:+ x.
Proof.
  induction l as [|a l [prefix IH]]; [by exists ""|].
  exists (a +:+ "/" +:+ prefix).
  change (Str.join "/" ((a :: l) ++ [x]))
    with (Str.join "/" (a :: (l ++ [x]))).
  destruct (l ++ [x])%list as [|y l'] eqn:E; [by destruct l|].
  change (Str.join "/" (a :: y :: l'))
    with (a +:+ "/" +:+ Str.join "/" (y :: l')).
  by rewrite IH, !app_assoc_string.
Qed.

Section Shape.
Variable R : RouterClass.
Variable t : Tree.

(** The last segment of the document of a page. *)
Lemma getDocumentName_shape (fuel : nat) (n : Reflection) (path : string) :
  getDocumentName R t fuel n = Ok path ->
  exists page parts,
    _getReflectionWithDocument R t fuel n = Ok page /\
    Forall (fun s => safeSegment s = true) parts /\
    path = Str.join "/"
             (parts ++ [if isDirectory R t page then "index.html"
                        else fileName t page]).
Proof.
  unfold getDocumentName. intros H.
  apply bind_Ok in H as (page & Hpage & H).
  apply bind_Ok in H as ([root parts] & Hwalk & H). simpl in H.
  apply getDocumentName_loop_safe in Hwalk; [|constructor].
  exists page. destruct (negb (isProject t root)); [done|].
  fold (isDirectory R t page) in H.
  destruct (isDirectory R t page); inversion H; subst.
  - by exists parts.
  - exists (removelast parts). split; [done|].
    split; [by apply Forall_removelast|done].
Qed.

Lemma lastSegment_safe (page : Reflection) :
  safeSegment (if isDirectory R t page then "index.html"
               else fileName t page) = true.
Proof. destruct (isDirectory R t page); [done|apply fileName_safe]. Qed.

Lemma segments_safe (parts : list string) (page : Reflection) :
  Forall (fun s => safeSegment s = true) parts ->
  (parts ++ [if isDirectory R t page then "index.html"
             else fileName t page])%list <> [] /\
  Forall (fun s => safeSegment s = true)
    (parts ++ [if isDirectory R t page then "index.html"
               else fileName t page]).
Proof.
  intros Hparts. split.
  - intros H. symmetry in H. by apply app_cons_not_nil in H.
  - apply Forall_app. split; [done|].
    repeat constructor. apply lastSegment_safe.
Qed.

Lemma anyChildren_notInPage (r : Reflection) :
  _anyChildrenHaveOwnDocument R t r = true <->
  getChildrenNotInPage R t r <> [].
Proof.
  unfold _anyChildrenHaveOwnDocument, getChildrenNotInPage.
  destruct (isContainer t r); [|done].
  destruct (children (t r)) as [cs|]; [|done].
  induction cs as [|c cs IH]; simpl; [done|].
  destruct (hasOwnDocument R t c); simpl; [done|exact IH].
Qed.

End Shape.

(** X7: the document of a page is the [index.html] of a directory exactly
    when the page is the project or [getChildrenNotInPage] lists a child of
    it; every other page is a file named after its kind. *)
Theorem index_pages_are_those_with_subpages (R : RouterClass) (t : Tree)
    (fuel : nat) (n page : Reflection) (path : string) :
  _getReflectionWithDocument R t fuel n = Ok page ->
  getDocumentName R t fuel n = Ok path ->
  (last (Str.split posix.slash path) = Some "index.html" <->
   isProject t page = true \/ getChildrenNotInPage R t page <> []) /\
  (last (Str.split posix.slash path) = Some (fileName t page) <->
   isProject t page = false /\ getChildrenNotInPage R t page = []).
Proof.
  intros Hpage H.
  apply getDocumentName_shape in H as (page' & parts & Hpage' & Hparts & ->).
  assert (page' = page) as -> by congruence.
  destruct (segments_safe R t parts page Hparts) as [Hne Hsafe].
  rewrite split_join, last_snoc by done.
  assert (Hdir : isDirectory R t page = true <->
                 isProject t page = true \/
                 getChildrenNotInPage R t page <> []).
  { unfold isDirectory. rewrite orb_true_iff, anyChildren_notInPage. tauto. }
  destruct (isDirectory R t page) eqn:E.
  - split; split.
    + intros _. by apply Hdir.
    + done.
    + intros [= Heq]. symmetry in Heq. by apply fileName_not_index in Heq.
    + intros [Hp Hc]. destruct Hdir as [Hdir' _].
      destruct (Hdir' eq_refl); congruence.
  - assert (Hnot : ~ (isProject t page = true \/
                      getChildrenNotInPage R t page <> [])).
    { intros Hor. apply Hdir in Hor. congruence. }
    split; split.
    + intros [= Heq]. by apply fileName_not_index in Heq.
    + intros Hor. by destruct Hnot.
    + intros _. split.
      * destruct (isProject t page); [|done]. destruct Hnot. by left.
      * destruct (getChildrenNotInPage R t page); [done|].
        destruct Hnot. by right.
    + done.
Qed.

Lemma index_pages_are_those_with_subpages_witness :
  last (Str.split posix.slash "core/index.html") = Some "index.html" <->
  isProject scenario 1 = true \/
  getChildrenNotInPage ThemeRouter scenario 1 <> [].
Proof.
  apply (index_pages_are_those_with_subpages ThemeRouter scenario 4 1 1);
    reflexivity.
Defined.

(** X8: document names of pages of different sorts never collide, whatever
    the names of the reflections: the document of a directory page differs
    from the document of a file page, and the documents of two file pages of
    different kinds differ. *)
Theorem documents_of_different_sorts_differ (R : RouterClass) (t : Tree)
    (fuel : nat) (n m a b : Reflection) (pathN pathM : string) :
  _getReflectionWithDocument R t fuel n = Ok a ->
  _getReflectionWithDocument R t fuel m = Ok b ->
  getDocumentName R t fuel n = Ok pathN ->
  getDocumentName R t fuel m = Ok pathM ->
  isDirectory R t a <> isDirectory R t b \/
  (isDirectory R t a = false /\ isDirectory R t b = false /\
   kind (t a) <> kind (t b)) ->
  pathN <> pathM.
Proof.
  intros Ha Hb Hn Hm Hsort.
  apply getDocumentName_shape in Hn as (a' & partsA & Ha' & HpartsA & ->).
  apply getDocumentName_shape in Hm as (b' & partsB & Hb' & HpartsB & ->).
  assert (a' = a) as -> by congruence. assert (b' = b) as -> by congruence.
  intros Heq.
  destruct (segments_safe R t partsA a HpartsA) as [HneA HsafeA].
  destruct (segments_safe R t partsB b HpartsB) as [HneB HsafeB].
  apply join_inj in Heq; [|done..].
  apply app_inj_tail in Heq as [_ Hlast].
  destruct (isDirectory R t a) eqn:Hda, (isDirectory R t b) eqn:Hdb.
  - destruct Hsort as [?|(? & _)]; congruence.
  - symmetry in Hlast. by apply fileName_not_index in Hlast.
  - by apply fileName_not_index in Hlast.
  - apply fileName_inj in Hlast as [Hk _].
    destruct Hsort as [?|(_ & _ & ?)]; congruence.
Qed.

Lemma documents_of_different_sorts_differ_witness :
  "core/interface.Foo.html" <> "core/namespace.Foo.html".
Proof.
  apply (documents_of_different_sorts_differ ThemeRouter merged 4 2 3 2 3);
    try reflexivity.
  right. repeat split; discriminate.
Defined.

(** X9: every document name ends in [.html]. *)
Theorem documents_are_html (R : RouterClass) (t : Tree) (fuel : nat)
    (n : Reflection) (path : string) :
  getDocumentName R t fuel n = Ok path ->
  exists stem, path = stem +:+ ".html".
Proof.
  intros H.
  apply getDocumentName_shape in H as (page & parts & _ & _ & ->).
  destruct (join_snoc parts
              (if isDirectory R t page then "index.html"
               else fileName t page)) as [prefix ->].
  destruct (isDirectory R t page).
  - exists (prefix +:+ "index"). by rewrite app_assoc_string.
  - exists (prefix +:+ toKindString (kind (t page)) +:+ "." +:+
            safeName t page).
    unfold fileName. by rewrite !app_assoc_string.
Qed.

Lemma documents_are_html_witness :
  exists stem, "core/class.Foo.html" = stem +:+ ".html".
Proof.
  apply (documents_are_html ThemeRouter scenario 4 3). reflexivity.
Defined.

(** ** Document names along the tree *)

(** X10: the document name of an owner of a page, split at the slashes,
    lists the sanitized names of its ancestors below the project from the
    outermost on, followed by [index.html] after the name of the owner
    itself if the page is a directory, and by the file of the page in place
    of that name otherwise: it has one piece more than the owner has
    ancestors below the project in the first case, and as many in the
    second. *)
Theorem document_path_follows_the_tree (R : RouterClass) (t : Tree)
    (fuel : nat) (a r : Reflection) (l : list Reflection) :
  lineage t a l r -> isProject t r = true -> length l < fuel ->
  hasOwnDocument R t a = true ->
  exists path,
    getDocumentName R t fuel a = Ok path /\
    Str.split posix.slash path =
      (if isDirectory R t a
       then rev (safeName t <$> l) ++ ["index.html"]
       else rev (safeName t <$> tail l) ++ [fileName t a])%list /\
    length (Str.split posix.slash path) =
      (if isDirectory R t a then S (length l) else length l).
Proof.
  intros Hl Hr Hfuel Ha.
  rewrite (getDocumentName_lineage R t fuel a r l) by done.
  eexists. split; [reflexivity|].
  assert (Hsplit : Str.split posix.slash
            (Str.join "/"
               (if isDirectory R t a
                then rev (safeName t <$> l) ++ ["index.html"]
                else rev (safeName t <$> tail l) ++ [fileName t a])%list) =
            (if isDirectory R t a
             then rev (safeName t <$> l) ++ ["index.html"]
             else rev (safeName t <$> tail l) ++ [fileName t a])%list).
  { apply split_join.
    - destruct (isDirectory R t a); intros H; symmetry in H;
        by apply app_cons_not_nil in H.
    - destruct (isDirectory R t a); apply Forall_app;
        (split; [apply safe_names_safe|]); repeat constructor.
      apply fileName_safe. }
  split; [exact Hsplit|]. rewrite Hsplit.
  destruct (isDirectory R t a) eqn:Hd.
  - rewrite length_app, length_rev, length_fmap. simpl. lia.
  - rewrite length_app, length_rev, length_fmap. simpl.
    destruct Hl as [r Hp|a p l r Hp Hl]; [|simpl; lia].
    unfold isDirectory in Hd. rewrite Hr in Hd. by rewrite orb_true_r in Hd.
Qed.

Lemma document_path_follows_the_tree_witness :
  exists path,
    getDocumentName ThemeRouter scenario 4 2 = Ok path /\
    Str.split posix.slash path = ["core"; "class.Foo.html"] /\
    length (Str.split posix.slash path) = 2.
Proof.
  apply (document_path_follows_the_tree ThemeRouter scenario 4 2 0 [2; 1]).
  - repeat (econstructor; try reflexivity).
  - reflexivity.
  - simpl. lia.
  - reflexivity.
Defined.

(** X11: the pages below an owner lie in its directory.  Where the parent
    and children links agree, an owner with a child that has a document is
    documented in the [index.html] of a directory; a child that is a file
    page lies in that directory, beside the [index.html], and a child that
    is a directory page has its own [index.html] in a subdirectory named
    after it. *)
Theorem subpages_lie_in_the_directory (R : RouterClass) (t : Tree)
    (fuel : nat) (r c root : Reflection) (l : list Reflection) :
  linked t ->
  lineage t r l root -> isProject t root = true -> S (length l) < fuel ->
  hasOwnDocument R t r = true ->
  parent (t c) = Some r -> hasOwnDocument R t c = true ->
  exists directory,
    getDocumentName R t fuel r =
      Ok (Str.join "/" (directory ++ ["index.html"])) /\
    getDocumentName R t fuel c =
      Ok (Str.join "/"
            (directory ++
             (if isDirectory R t c then [safeName t c; "index.html"]
              else [fileName t c]))).
Proof.
  intros Hlinked Hl Hroot Hfuel Hr Hp Hc.
  exists (rev (safeName t <$> l)).
  rewrite (getDocumentName_lineage R t fuel r root l) by (done || lia).
  rewrite (parent_of_owner_is_directory R t
             (linked_ownersLinked R t Hlinked) c r Hp Hc).
  split; [done|].
  rewrite (getDocumentName_lineage R t fuel c root (c :: l));
    [|by econstructor|done|simpl; lia|done].
  destruct (isDirectory R t c); [|done].
  rewrite fmap_cons. simpl. by rewrite <- app_assoc.
Qed.

Lemma subpages_lie_in_the_directory_witness :
  exists directory,
    getDocumentName ThemeRouter scenario 4 1 =
      Ok (Str.join "/" (directory ++ ["index.html"])) /\
    getDocumentName ThemeRouter scenario 4 2 =
      Ok (Str.join "/" (directory ++ ["class.Foo.html"])).
Proof.
  apply (subpages_lie_in_the_directory ThemeRouter scenario 4 1 2 0 [1]).
  - intros c p. unfold isContainer.
    destruct c as [|[|[|[|c]]]]; simpl; intros [= <-]; simpl;
      (split; [done|]); eexists; (split; [reflexivity|]);
      apply list_elem_of_In; simpl; auto.
  - repeat (econstructor; try reflexivity).
  - reflexivity.
  - simpl. lia.
  - reflexivity.
  - reflexivity.
  - reflexivity.
Defined.

(** ** When the assertions fail *)

Lemma lineage_owner (R : RouterClass) (t : Tree) (n r : Reflection)
    (l : list Reflection) :
  lineage t n l r ->
  forall fuel, length l < fuel ->
    (exists page l',
       _getReflectionWithDocument_loop R t fuel n = Ok page /\
       lineage t page l' r /\ length l' <= length l /\
       page ∈ (l ++ [r])%list) \/
    (_getReflectionWithDocument_loop R t fuel n = Threw BrokenAncestryError /\
     Forall (fun x => hasOwnDocument R t x = false) (l ++ [r])).
Proof.
  induction 1 as [r Hp|n p l r Hp Hl IH]; intros fuel Hfuel;
    (destruct fuel as [|fuel]; [simpl in Hfuel; lia|]); simpl.
  - destruct (hasOwnDocument R t r) eqn:Hr.
    + left. exists r, []. repeat split; [by constructor|done|].
      apply list_elem_of_In. simpl. auto.
    + right. rewrite Hp. split; [done|]. by repeat constructor.
  - destruct (hasOwnDocument R t n) eqn:Hn.
    + left. exists n, (n :: l). repeat split; [by econstructor|done|].
      apply list_elem_of_In. simpl. auto.
    + rewrite Hp. destruct (IH fuel) as [(page & l' & H1 & H2 & H3 & H4)|[H1 H2]];
        [simpl in Hfuel; lia| |].
      * left. exists page, l'. repeat split; [done|done|simpl; lia|].
        by apply elem_of_cons; right.
      * right. split; [done|]. by constructor.
Qed.

(** X12: on a reflection with finitely many ancestors, and rounds for
    them, [getDocumentName] fails exactly as follows: with
    [BrokenAncestryError] when neither the reflection nor any ancestor has
    a document; with [NonProjectRootError] when one has, but the parentless
    ancestor is not the project; in all other cases it returns. *)
Theorem getDocumentName_fails_exactly (R : RouterClass) (t : Tree)
    (fuel : nat) (n r : Reflection) (l : list Reflection) :
  lineage t n l r -> length l < fuel ->
  match getDocumentName R t fuel n with
  | Ok _ =>
      Exists (fun x => hasOwnDocument R t x = true) (l ++ [r]) /\
      isProject t r = true
  | Threw BrokenAncestryError =>
      Forall (fun x => hasOwnDocument R t x = false) (l ++ [r])
  | Threw NonProjectRootError =>
      Exists (fun x => hasOwnDocument R t x = true) (l ++ [r]) /\
      isProject t r = false
  | OutOfFuel => False
  end.
Proof.
  intros Hl Hfuel. unfold getDocumentName, _getReflectionWithDocument.
  destruct (lineage_owner R t n r l Hl fuel Hfuel)
    as [(page & l' & Hpage & Hl' & Hle & Hin)|[Hpage Hnone]];
    rewrite Hpage; [|done].
  cbn [bind]. rewrite (walk_lineage t page r l' Hl') by lia. cbn [bind fst snd].
  assert (Hex : Exists (fun x => hasOwnDocument R t x = true) (l ++ [r])).
  { apply Exists_exists. exists page. split; [done|].
    by destruct (owner_found R t fuel n page Hpage). }
  destruct (isProject t r); cbn [negb]; [|done].
  by destruct (_ || _).
Qed.

Lemma getDocumentName_fails_exactly_witness :
  Exists (fun x => hasOwnDocument ThemeRouter scenario x = true)
    ([3; 2; 1] ++ [0]) /\
  isProject scenario 0 = true.
Proof.
  apply (getDocumentName_fails_exactly ThemeRouter scenario 4 3 0 [3; 2; 1]).
  - repeat (econstructor; try reflexivity).
  - simpl. lia.
Defined.

(** ** Reserved identifiers *)

Lemma reserved_cases (k : string) :
  k ∈ reserved <-> k = "main" \/ k = "search" \/ k = "theme".
Proof.
  unfold reserved. rewrite !elem_of_cons, elem_of_nil. tauto.
Qed.

Lemma seeded_lookup (k : string) :
  seeded !! k = if bool_decide (k ∈ reserved) then Some 0 else None.
Proof.
  destruct (decide (k = "main")) as [->|Hmain]; [vm_compute; reflexivity|].
  destruct (decide (k = "search")) as [->|Hsearch]; [vm_compute; reflexivity|].
  destruct (decide (k = "theme")) as [->|Htheme]; [vm_compute; reflexivity|].
  rewrite bool_decide_eq_false_2 by (rewrite reserved_cases; tauto).
  assert (Hseeded : seeded =
            <["theme" := 0]> (<["search" := 0]> (<["main" := 0]> ∅)))
    by (vm_compute; reflexivity).
  rewrite Hseeded.
  rewrite lookup_insert_ne by congruence.
  rewrite lookup_insert_ne by congruence.
  rewrite lookup_insert_ne by congruence.
  apply lookup_empty.
Qed.

(** What a freshly seeded slugger makes of a label. *)
Lemma slug_seeded (value : string) :
  (Slugger.slug seeded value).1 =
  if bool_decide (Slugger.serialize value ∈ reserved)
  then Slugger.serialize value +:+ "-1"
  else Slugger.serialize value.
Proof.
  unfold Slugger.slug, Slugger.getNextSafeSlug. rewrite seeded_lookup.
  case_bool_decide as Hk; [|reflexivity].
  apply reserved_cases in Hk as [-> | [-> | ->]]; vm_compute; reflexivity.
Qed.

(** X13: the first slug of a page avoids the identifiers of the page
    itself.  On a page without slugger, a call with a non-empty header
    returns the normalized header, and a call for a child of the owner that
    is no signature and has no slug yet returns its normalized name, each
    followed by [-1] if it is one of [main], [search] and [theme]. *)
Theorem first_slug_avoids_reserved (R : RouterClass) (t : Tree) (fuel : nat)
    (st : RouterState) (n page : Reflection) :
  _getReflectionWithDocument R t fuel n = Ok page ->
  _sluggers st !! page = None ->
  (forall header, header <> "" ->
     exists st',
       createSlug R t fuel st n (Some header) =
       Ok (if bool_decide (Slugger.serialize header ∈ reserved)
           then Slugger.serialize header +:+ "-1"
           else Slugger.serialize header, st')) /\
  (n <> page -> parent (t n) = Some page ->
   kindOf t n [Signature] = false -> memo st page n = None ->
   exists st',
     createSlug R t fuel st n None =
     Ok (if bool_decide (Slugger.serialize (name (t n)) ∈ reserved)
         then Slugger.serialize (name (t n)) +:+ "-1"
         else Slugger.serialize (name (t n)), st')).
Proof.
  intros Hpage Hnone. split.
  - intros header Hne. unfold createSlug. rewrite Hpage. simpl.
    rewrite (bool_decide_eq_false_2 (header = "")) by done.
    rewrite andb_false_r. simpl. rewrite Hnone. simpl. rewrite slug_seeded.
    by eexists.
  - intros Hn Hp Hk Hmemo.
    assert (Hparts : createSlug_loop t fuel n page [] = Ok [name (t n)]).
    { unfold _getReflectionWithDocument in Hpage.
      destruct fuel as [|[|k]]; [done| |].
      - simpl in Hpage. destruct (hasOwnDocument R t n); [congruence|].
        by rewrite Hp in Hpage.
      - simpl. rewrite bool_decide_eq_false_2 by done.
        rewrite Hk, Hp. simpl. by rewrite bool_decide_eq_true_2. }
    unfold createSlug. rewrite Hpage. simpl.
    rewrite bool_decide_eq_false_2 by done. simpl. rewrite Hparts. simpl.
    unfold memo, slugsOf in Hmemo. rewrite Hmemo, Hnone. simpl.
    rewrite slug_seeded. by eexists.
Qed.

Lemma first_slug_avoids_reserved_witness :
  exists st',
    createSlug ThemeRouter scenario 4 initial 3 (Some "Main!") =
    Ok ("main-1", st').
Proof.
  apply (proj1 (first_slug_avoids_reserved ThemeRouter scenario 4 initial 3 2
                  eq_refl eq_refl) "Main!").
  discriminate.
Defined.

(** ** The state of one page *)

(** X14: a call of [createSlug] or of [createLink] touches the slugger and
    the remembered slugs of one page only, the page of the reflection the
    slug is for; and a call with a non-empty header changes no remembered
    slug at all. *)
Theorem calls_touch_one_page (R : RouterClass) (t : Tree) (fuel : nat)
    (st : RouterState) (n page : Reflection) :
  _getReflectionWithDocument R t fuel n = Ok page ->
  (forall header slug st',
     createSlug R t fuel st n header = Ok (slug, st') ->
     (forall other, other <> page ->
        _sluggers st' !! other = _sluggers st !! other /\
        _slugs st' !! other = _slugs st !! other) /\
     (truthy header = true -> _slugs st' = _slugs st)) /\
  (forall cwd from link st',
     createLink R t cwd fuel st from n = Ok (link, st') ->
     forall other, other <> page ->
       _sluggers st' !! other = _sluggers st !! other /\
       _slugs st' !! other = _slugs st !! other).
Proof.
  intros Hpage.
  assert (Hslug : forall header slug st',
            createSlug R t fuel st n header = Ok (slug, st') ->
            (forall other, other <> page ->
               _sluggers st' !! other = _sluggers st !! other /\
               _slugs st' !! other = _slugs st !! other) /\
            (truthy header = true -> _slugs st' = _slugs st)).
  { intros header slug st' H. unfold createSlug in H. rewrite Hpage in H.
    simpl in H. destruct (truthy header) eqn:Eh.
    - rewrite andb_false_r in H. inversion H; subst; clear H. simpl.
      split; [|done]. intros other Hother.
      by rewrite !lookup_insert_ne.
    - rewrite andb_true_r in H. split; [|done]. intros other Hother.
      case_bool_decide; [by inversion H|].
      destruct (createSlug_loop t fuel n page []) as [parts| |]; [|done..].
      simpl in H. destruct (_ !! n); inversion H; subst; clear H; simpl;
        by rewrite !lookup_insert_ne. }
  split; [exact Hslug|].
  intros cwd from link st' H. apply createLink_createSlug in H as [slug H].
  by destruct (Hslug None slug st' H).
Qed.

Lemma calls_touch_one_page_witness :
  let st' := stateAfter (createSlug ThemeRouter scenario 4 initial 3 None) in
  _sluggers st' !! 1 = _sluggers initial !! 1 /\
  _slugs st' !! 1 = _slugs initial !! 1.
Proof.
  intros st'.
  apply (proj1 (proj1 (calls_touch_one_page ThemeRouter scenario 4 initial 3 2
                         eq_refl) None "bar" st' eq_refl) 1).
  lia.
Defined.

(** ** Anchors of headers *)

Lemma pageStep_fresh seen slugs seen' slugs' (s : string) :
  pageStep seen slugs seen' slugs' ->
  is_Some (seen !! s) -> (forall n, slugs !! n <> Some s) ->
  is_Some (seen' !! s) /\ (forall n, slugs' !! n <> Some s).
Proof.
  intros [|value|value target Hnone] Hs Hslugs;
    [done|split; [by apply slug_keeps|done]|].
  split; [by apply slug_keeps|]. intros n. rewrite lookup_insert.
  case_decide; [|done]. intros [= Heq].
  pose proof (slug_fresh seen value) as Hfresh. rewrite Heq in Hfresh.
  destruct Hs as [? Hs]. congruence.
Qed.

Lemma calls_seen (R : RouterClass) (t : Tree) (st st' : RouterState)
    (page : Reflection) (s : string) :
  calls R t st st' ->
  is_Some (sluggerOf st page !! s) -> is_Some (sluggerOf st' page !! s).
Proof.
  induction 1 as [|st st1 st2 Hcall _ IH]; [done|]. intros Hs. apply IH.
  destruct (call_pageStep R t st st1 Hcall page) as [|value|value target _];
    [done|by apply slug_keeps..].
Qed.

Lemma calls_fresh (R : RouterClass) (t : Tree) (st st' : RouterState)
    (page : Reflection) (s : string) :
  calls R t st st' ->
  is_Some (sluggerOf st page !! s) /\ (forall n, memo st page n <> Some s) ->
  is_Some (sluggerOf st' page !! s) /\ (forall n, memo st' page n <> Some s).
Proof.
  induction 1 as [|st st1 st2 Hcall _ IH]; [done|]. intros [Hs Hm]. apply IH.
  by apply (pageStep_fresh _ _ _ _ s (call_pageStep R t st st1 Hcall page)).
Qed.

(** The slug of a call that is not the empty slug of an owner is, unless it
    is [__proto__], among the identifiers that the slugger of the page
    holds afterwards; it has no upper-case letter. *)
Lemma createSlug_held (R : RouterClass) (t : Tree) (fuel : nat)
    (st st' : RouterState) (n page : Reflection) (header : option string)
    (slug : string) :
  invariant st' ->
  _getReflectionWithDocument R t fuel n = Ok page ->
  truthy header = true \/ n <> page ->
  createSlug R t fuel st n header = Ok (slug, st') ->
  lowered slug = true /\
  (slug <> "__proto__" -> is_Some (sluggerOf st' page !! slug)).
Proof.
  intros Hinv Hpage Hcase H.
  apply createSlug_Ok in H as (page' & Hpage' & H).
  assert (page' = page) as -> by congruence.
  destruct H as [(-> & Hh & _)|[(_ & -> & Hs & _)|(_ & _ & parts & _ & Hm & _)]].
  - destruct Hcase; congruence.
  - split; [apply slug_result_lowered|].
    rewrite Hs, decide_True by done. apply slug_recorded.
  - split.
    + by destruct (slugs_lowered _ _ (Hinv page) n slug Hm).
    + apply (slugs_seen _ _ (Hinv page) n slug Hm).
Qed.

(** X15: the anchor of a header is unlike every other anchor of its page.
    In the life of a router, two calls of [createSlug] for one page, of
    which at least one has a non-empty header and each has a non-empty
    header or is for a reflection other than the owner, return slugs that
    differ even up to case, unless both slugs are [__proto__]. *)
Theorem header_anchors_are_unique (R : RouterClass) (t : Tree) (fuel : nat)
    (st0 st1 st2 st3 : RouterState) (n1 n2 page : Reflection)
    (header1 header2 : option string) (slug1 slug2 : string) :
  calls R t initial st0 ->
  _getReflectionWithDocument R t fuel n1 = Ok page ->
  _getReflectionWithDocument R t fuel n2 = Ok page ->
  truthy header1 = true \/ n1 <> page ->
  truthy header2 = true \/ n2 <> page ->
  truthy header1 = true \/ truthy header2 = true ->
  createSlug R t fuel st0 n1 header1 = Ok (slug1, st1) ->
  calls R t st1 st2 ->
  createSlug R t fuel st2 n2 header2 = Ok (slug2, st3) ->
  slug1 <> "__proto__" \/ slug2 <> "__proto__" ->
  Str.toLowerCase slug1 <> Str.toLowerCase slug2.
Proof.
  intros Hreach Hp1 Hp2 Hc1 Hc2 Hheader H1 Hcalls H2 Hproto.
  assert (Hcall1 : calls R t st0 st1) by (apply rtc_once; by econstructor).
  assert (Hcall2 : calls R t st2 st3) by (apply rtc_once; by econstructor).
  assert (Hinv0 : invariant st0)
    by (by apply (calls_invariant R t initial); [|apply initial_invariant]).
  assert (Hinv1 : invariant st1) by (by apply (calls_invariant R t st0)).
  assert (Hinv2 : invariant st2) by (by apply (calls_invariant R t st1)).
  assert (Hinv3 : invariant st3) by (by apply (calls_invariant R t st2)).
  destruct (createSlug_held R t fuel st0 st1 n1 page header1 slug1
              Hinv1 Hp1 Hc1 H1) as [Hlow1 Hheld1].
  destruct (createSlug_held R t fuel st2 st3 n2 page header2 slug2
              Hinv3 Hp2 Hc2 H2) as [Hlow2 Hheld2].
  rewrite !lowered_toLowerCase by done. intros Heq.
  assert (Hnot : slug1 <> "__proto__") by (destruct Hproto; congruence).
  specialize (Hheld1 Hnot). subst slug2.
  apply createSlug_Ok in H2 as (page2 & Hpage2 & H2).
  assert (page2 = page) as -> by congruence.
  destruct H2 as [(-> & Hh & _)|[(Hh2 & Hslug2 & _)|(Hh2 & Hn2 & parts & _ & Hm2 & H2)]].
  - destruct Hc2; congruence.
  - (* the second call has a header: its slug is new to the slugger *)
    pose proof (slug_fresh (sluggerOf st2 page) (default "" header2)) as Hnew.
    rewrite <- Hslug2 in Hnew.
    destruct (calls_seen R t st1 st2 page slug1 Hcalls Hheld1) as [? Hold].
    congruence.
  - (* the first call has a header: no reflection ever gets its slug *)
    assert (Hh1 : truthy header1 = true) by (destruct Hheader; congruence).
    apply createSlug_Ok in H1 as (page1 & Hpage1 & H1).
    assert (page1 = page) as -> by congruence.
    destruct H1 as [(_ & ? & _)|[(_ & Hslug1 & _ & Hm1)|(? & _)]];
      [congruence| |congruence].
    pose proof (slug_fresh (sluggerOf st0 page) (default "" header1)) as Hnew.
    rewrite <- Hslug1 in Hnew.
    assert (Hfresh1 : forall n, memo st1 page n <> Some slug1).
    { intros n Hn. unfold memo in Hn. rewrite Hm1 in Hn.
      destruct (slugs_seen _ _ (Hinv0 page) n slug1 Hn Hnot) as [? Hs].
      congruence. }
    destruct (calls_fresh R t st1 st3 page slug1) as [_ Hnever];
      [by etrans|done|].
    by apply (Hnever n2).
Qed.

Lemma header_anchors_are_unique_witness :
  Str.toLowerCase "bar" <> Str.toLowerCase "bar-1".
Proof.
  set (st1 := stateAfter (createSlug ThemeRouter scenario 4 initial 3 None)).
  set (st2 := stateAfter
                (createSlug ThemeRouter scenario 4 st1 2 (Some "Bar"))).
  apply (header_anchors_are_unique ThemeRouter scenario 4 initial st1 st1 st2
           3 2 2 None (Some "Bar")).
  - apply rtc_refl.
  - reflexivity.
  - reflexivity.
  - right. lia.
  - by left.
  - by right.
  - vm_compute. reflexivity.
  - apply rtc_refl.
  - vm_compute. reflexivity.
  - left. discriminate.
Defined.

(** ** Labels of anchors *)

Lemma label_app (t : Tree) (page : Reflection) (fuel : nat) :
  forall n acc,
    createSlug_loop t fuel n page acc =
    (parts <- createSlug_loop t fuel n page [] ;; Ok (parts ++ acc)%list).
Proof.
  induction fuel as [|fuel IH]; intros n acc; [done|].
  simpl. case_bool_decide; [done|].
  destruct (parent (t n)) as [p|]; [|done].
  destruct (negb (kindOf t n [Signature])).
  - rewrite (IH p (name (t n) :: acc)), (IH p [name (t n)]).
    destruct (createSlug_loop t fuel p page []); simpl; [|done..].
    by rewrite <- app_assoc.
  - apply IH.
Qed.

(** X16: the label of the anchor of a reflection is the label of its
    parent, followed by its own name unless it is a signature: a signature
    has the label of its parent, and the labels of the reflections of a
    page spell their paths below the owner of the page. *)
Theorem labels_extend_the_parent (t : Tree) (fuel : nat)
    (n p page : Reflection) (parts : list string) :
  n <> page -> parent (t n) = Some p ->
  createSlug_loop t fuel p page [] = Ok parts ->
  createSlug_loop t (S fuel) n page [] =
  Ok (parts ++ if kindOf t n [Signature] then [] else [name (t n)])%list.
Proof.
  intros Hn Hp Hparts. simpl. rewrite bool_decide_eq_false_2 by done.
  rewrite Hp, label_app, Hparts. simpl.
  destruct (kindOf t n [Signature]); simpl; [by rewrite app_nil_r|done].
Qed.

Lemma labels_extend_the_parent_witness :
  createSlug_loop scenario 2 3 2 [] = Ok ["bar"].
Proof.
  apply (labels_extend_the_parent scenario 1 3 2 2 []).
  - lia.
  - reflexivity.
  - reflexivity.
Defined.

(** ** One page for the whole tree *)

(** X17: under [MinimalThemeRouter] every reflection below a project, with
    no other project among its ancestors, is on the page of that project:
    the whole tree has one page, hence one slugger. *)
Theorem minimal_router_resolves_to_the_project (t : Tree) (fuel : nat)
    (n r : Reflection) (l : list Reflection) :
  lineage t n l r -> isProject t r = true ->
  Forall (fun x => isProject t x = false) l ->
  length l < fuel ->
  _getReflectionWithDocument MinimalThemeRouter t fuel n = Ok r.
Proof.
  unfold _getReflectionWithDocument. intros Hl Hr. revert fuel.
  induction Hl as [r Hp|n p l r Hp Hl IH]; intros fuel Hnone Hfuel;
    (destruct fuel as [|fuel]; [simpl in Hfuel; lia|]); simpl.
  - by rewrite Hr.
  - apply Forall_cons in Hnone as [Hn Hnone]. rewrite Hn, Hp.
    apply IH; [done..|]. simpl in Hfuel. lia.
Qed.

Lemma minimal_router_resolves_to_the_project_witness :
  _getReflectionWithDocument MinimalThemeRouter scenario 4 3 = Ok 0.
Proof.
  apply (minimal_router_resolves_to_the_project scenario 4 3 0 [3; 2; 1]).
  - repeat (econstructor; try reflexivity).
  - reflexivity.
  - by repeat constructor.
  - simpl. lia.
Defined.
